(** * cis_publishers.common.profile: the Profile projector and signer

    A shallow embedding of [cis_publishers/common/profile.py]: the classes
    [ProfileDict], [SignableAttribute] and [Profile], with the recursive
    [_walk] that synchronises the raw signed tree and the flat view, and of
    [change_profile] of [cis_publishers/common/people.py], which [publish]
    calls.

    Python values are one inductive type, objects of the two [UserDict]
    subclasses included, so that [_walk] is one function with its seven
    branches in source order.  Dictionaries are association lists in insertion
    order; a Python dictionary never holds a key twice, which is the
    predicate [wf_value] where a statement needs it.  Mutation in place is
    written as explicit replacement, and an operation that raises returns the
    state it had reached together with the exception.  The module globals,
    the environment, the clock, the log and the documents posted to the
    Change API are the record [world]; [jws.sign], the formatted time, the
    names a [Profile] inherits, the globals of [people.py] and the answers
    of the Change API are the variables of the section [Signing].

    Outside the embedding: floating-point numbers; mappings with keys that
    are not strings, which a list of numbers becomes where it is written to
    an attribute (see [listify]); a [Profile] instance after [setattr] has
    rebound [data], [_base_keys], the notifications, [notify] or [is_empty]
    (see [Profile_setattr]); and the sharing of mapping objects between the
    flat view and the raw tree, which the operations here never change in
    place.  Where the code goes on
    with such an object the operation ends with [Unsupported].  Strings are
    byte strings, compared byte-wise (the code-point order of UTF-8 text).

    The definitions come first: the values and Python's operations on them,
    the three classes, sample data, and the predicates the statements use.
    The properties follow, one section for each group of them. *)

From Stdlib Require Import List ZArith String Ascii Bool Lia DecimalString.
From Stdlib Require Import Sorted Permutation.
Import ListNotations.
Open Scope string_scope.
Set Warnings "-register-all".

(** ** Values *)

Inductive value : Type :=
| PNone
| PBool (b : bool)
| PInt (z : Z)
| PStr (s : string)
| PList (l : list value)
| PDict (d : list (string * value))
| SignableAttribute (data : list (string * value)) (name : string)
| ProfileDict (data : list (string * value)).

Definition dict := list (string * value).

(** Exceptions raised by the module and by the Python operations it uses.
    [RequestException] stands for whatever [requests] raises when a request
    or the decoding of its answer fails.  [Unsupported] is no exception of
    Python: an operation ends with it where the code goes on with an object
    these definitions cannot hold (a mapping with keys that are not strings,
    an instance whose attributes were rebound), so that no statement speaks
    for the code there. *)
Inductive exn : Type :=
| ValueError (msg : string)
| TypeError
| KeyError (k : string)
| AttributeError
| RuntimeError (msg : string)
| InactiveProfileException
| RequestException
| Unsupported.

(** ** Dictionaries in insertion order *)

Fixpoint dict_get (k : string) (d : dict) : option value :=
  match d with
  | [] => None
  | (k', v) :: t => if String.eqb k k' then Some v else dict_get k t
  end.

Definition dict_has (k : string) (d : dict) : bool :=
  match dict_get k d with Some _ => true | None => false end.

(** [d[k] = v]: an existing key keeps its position, a new one goes last. *)
Fixpoint dict_set (k : string) (v : value) (d : dict) : dict :=
  match d with
  | [] => [(k, v)]
  | (k', v') :: t =>
      if String.eqb k k' then (k', v) :: t else (k', v') :: dict_set k v t
  end.

(** [del d[k]] for a key that is present. *)
Fixpoint dict_del (k : string) (d : dict) : dict :=
  match d with
  | [] => []
  | (k', v') :: t => if String.eqb k k' then t else (k', v') :: dict_del k t
  end.

Definition keys (d : dict) : list string := map fst d.
Definition values (d : dict) : list value := map snd d.

(** [d.get(k)], with the default [None]. *)
Definition get_or_None (k : string) (d : dict) : value :=
  match dict_get k d with Some v => v | None => PNone end.

(** The entries of a mapping: a [dict] or one of the [UserDict] objects. *)
Definition as_mapping (v : value) : option dict :=
  match v with
  | PDict d | SignableAttribute d _ | ProfileDict d => Some d
  | _ => None
  end.

(** ** Python's [==], truth value and [str] *)

Definition is_None (v : value) : bool :=
  match v with PNone => true | _ => false end.

Definition Z_of_bool (b : bool) : Z := if b then 1%Z else 0%Z.

(** [a == b].  Booleans compare with integers as 0 and 1; lists compare
    member by member; mappings compare as sets of entries, whatever their
    order and whether they are a [dict] or a [UserDict]. *)
Fixpoint py_eq (a b : value) {struct a} : bool :=
  match a with
  | PNone => is_None b
  | PBool x =>
      match b with
      | PBool y => Bool.eqb x y
      | PInt z => Z.eqb (Z_of_bool x) z
      | _ => false
      end
  | PInt x =>
      match b with
      | PInt y => Z.eqb x y
      | PBool y => Z.eqb x (Z_of_bool y)
      | _ => false
      end
  | PStr x => match b with PStr y => String.eqb x y | _ => false end
  | PList l1 =>
      match b with
      | PList l2 =>
          (fix all2 (l1 l2 : list value) {struct l1} : bool :=
             match l1, l2 with
             | [], [] => true
             | x :: t, y :: u => py_eq x y && all2 t u
             | _, _ => false
             end) l1 l2
      | _ => false
      end
  | PDict d1 | SignableAttribute d1 _ | ProfileDict d1 =>
      match as_mapping b with
      | Some d2 =>
          Nat.eqb (List.length d1) (List.length d2) &&
          (fix all1 (l : dict) {struct l} : bool :=
             match l with
             | [] => true
             | (k, v) :: t =>
                 match dict_get k d2 with
                 | Some w => py_eq v w
                 | None => false
                 end && all1 t
             end) d1
      | None => false
      end
  end.

(** [x in (a, b, ...)]. *)
Definition py_in (x : value) (l : list value) : bool :=
  existsb (fun y => py_eq x y) l.

(** [bool(v)]. *)
Definition truthy (v : value) : bool :=
  match v with
  | PNone => false
  | PBool b => b
  | PInt z => negb (Z.eqb z 0)
  | PStr s => negb (String.eqb s EmptyString)
  | PList l => match l with [] => false | _ => true end
  | PDict d | SignableAttribute d _ | ProfileDict d =>
      match d with [] => false | _ => true end
  end.

(** [any(l)]. *)
Definition any (l : list value) : bool := existsb truthy l.

(** [str(z)] for an integer. *)
Definition str_of_int (z : Z) : string := NilZero.string_of_int (Z.to_int z).

Definition hex_digit (n : nat) : ascii :=
  match n with
  | 0 => "0" | 1 => "1" | 2 => "2" | 3 => "3" | 4 => "4" | 5 => "5"
  | 6 => "6" | 7 => "7" | 8 => "8" | 9 => "9" | 10 => "a" | 11 => "b"
  | 12 => "c" | 13 => "d" | 14 => "e" | _ => "f"
  end%char.

Fixpoint string_has (c : ascii) (s : string) : bool :=
  match s with
  | EmptyString => false
  | String c' t => Ascii.eqb c c' || string_has c t
  end.

(** The body of [repr(s)] between its quotes: backslash, the quote and the
    control characters are escaped; bytes from 128 up belong to printable
    UTF-8 text and stay. *)
Fixpoint repr_body (q : ascii) (s : string) : string :=
  match s with
  | EmptyString => EmptyString
  | String c t =>
      let n := nat_of_ascii c in
      let rest := repr_body q t in
      if Ascii.eqb c "\" then String "\" (String "\" rest)
      else if Ascii.eqb c q then String "\" (String c rest)
      else if Nat.eqb n 9 then String "\" (String "t" rest)
      else if Nat.eqb n 10 then String "\" (String "n" rest)
      else if Nat.eqb n 13 then String "\" (String "r" rest)
      else if Nat.ltb n 32 || Nat.eqb n 127 then
        String "\" (String "x" (String (hex_digit (n / 16))
                                  (String (hex_digit (n mod 16)) rest)))
      else String c rest
  end%char.

Definition dquote : ascii := ascii_of_nat 34.

(** [repr(s)]: single quotes, unless the text has one and no double quote. *)
Definition repr_str (s : string) : string :=
  let q := if string_has "'"%char s && negb (string_has dquote s)
           then dquote else "'"%char in
  String q (repr_body q s ++ String q EmptyString).

(** [sep.join(l)]. *)
Fixpoint join (sep : string) (l : list string) : string :=
  match l with
  | [] => EmptyString
  | [x] => x
  | x :: t => x ++ sep ++ join sep t
  end.

(** [repr(v)]; a [UserDict] prints as its [data]. *)
Fixpoint repr (v : value) : string :=
  match v with
  | PNone => "None"
  | PBool true => "True"
  | PBool false => "False"
  | PInt z => str_of_int z
  | PStr s => repr_str s
  | PList l => "[" ++ join ", " (map repr l) ++ "]"
  | PDict d | SignableAttribute d _ | ProfileDict d =>
      "{" ++ join ", "
               ((fix entries (l : dict) : list string :=
                   match l with
                   | [] => []
                   | (k, x) :: t => (repr_str k ++ ": " ++ repr x) :: entries t
                   end) d) ++ "}"
  end.

(** [str(v)], as an f-string formats it: a string is itself. *)
Definition str (v : value) : string :=
  match v with PStr s => s | _ => repr v end.

(** ** Sorting *)

Fixpoint insert_str (x : string) (l : list string) : list string :=
  match l with
  | [] => [x]
  | y :: t => if String.leb x y then x :: l else y :: insert_str x t
  end.

(** [sorted(l)] for strings. *)
Fixpoint sorted (l : list string) : list string :=
  match l with
  | [] => []
  | x :: t => insert_str x (sorted t)
  end.

(** The order of Python tuples [(attribute, message)]. *)
Definition pair_leb (a b : string * string) : bool :=
  if String.eqb (fst a) (fst b) then String.leb (snd a) (snd b)
  else String.leb (fst a) (fst b).

Fixpoint insert_pair (x : string * string) (l : list (string * string))
  : list (string * string) :=
  match l with
  | [] => [x]
  | y :: t => if pair_leb x y then x :: l else y :: insert_pair x t
  end.

(** [sorted(l)] for the notification tuples. *)
Fixpoint sorted_pairs (l : list (string * string)) : list (string * string) :=
  match l with
  | [] => []
  | x :: t => insert_pair x (sorted_pairs t)
  end.

(** ** Process state

    The module globals [DISPLAY_LEVEL] and [PUBLISHER_SIGNING_KEY], the two
    environment variables the module reads, the number of clock readings so
    far, the logger's output and the documents posted to the Change API. *)

Record world : Type := mkWorld {
  DISPLAY_LEVEL : option string;
  PUBLISHER_SIGNING_KEY : option value;
  PUBLISHER_NAME : option string;
  DRY_RUN : option string;
  ticks : nat;
  log : list (string * string);
  submitted : list value
}.

Definition set_DISPLAY_LEVEL (l : option string) (w : world) : world :=
  mkWorld l (PUBLISHER_SIGNING_KEY w) (PUBLISHER_NAME w) (DRY_RUN w)
          (ticks w) (log w) (submitted w).

Definition tick (w : world) : world :=
  mkWorld (DISPLAY_LEVEL w) (PUBLISHER_SIGNING_KEY w) (PUBLISHER_NAME w)
          (DRY_RUN w) (S (ticks w)) (log w) (submitted w).

Definition add_log (level msg : string) (w : world) : world :=
  mkWorld (DISPLAY_LEVEL w) (PUBLISHER_SIGNING_KEY w) (PUBLISHER_NAME w)
          (DRY_RUN w) (ticks w) (log w ++ [(level, msg)]) (submitted w).

Definition add_submitted (doc : value) (w : world) : world :=
  mkWorld (DISPLAY_LEVEL w) (PUBLISHER_SIGNING_KEY w) (PUBLISHER_NAME w)
          (DRY_RUN w) (ticks w) (log w) (submitted w ++ [doc]).

(** What a leaf write or a walk runs in: the process state and the
    notification list of the parent profile. *)
Definition state : Type := (world * list (string * string))%type.

(** ** SignableAttribute *)

(** [__contains__]: true for [value] and [values] when the data has either;
    any other membership test ends in [super().__contains__(self, k)], a
    call with one argument too many. *)
Definition SignableAttribute_contains (k : string) (data : dict) : exn + bool :=
  if (String.eqb k "value" || String.eqb k "values")
     && (dict_has "value" data || dict_has "values" data)
  then inr true
  else inl TypeError.

(** [__getattr__] for [.value] and [.values]:
    [self.data.get("value", self.data.get("values"))]. *)
Definition SignableAttribute_value (data : dict) : value :=
  match dict_get "value" data with
  | Some v => v
  | None => get_or_None "values" data
  end.

Fixpoint strings_of (l : list value) : option (list string) :=
  match l with
  | [] => Some []
  | PStr s :: t =>
      match strings_of t with Some ss => Some (s :: ss) | None => None end
  | _ => None
  end.

(** [{v: None for v in l}], continued from the entries [acc]. *)
Definition to_None (l : list string) (acc : dict) : dict :=
  fold_left (fun d s => dict_set s PNone d) l acc.

(** The members are all integers or booleans, which [sorted] compares. *)
Definition numbers_only (l : list value) : bool :=
  forallb (fun x => match x with PInt _ | PBool _ => true | _ => false end) l.

(** [{v: None for v in sorted(v)}].  For a list of strings it is the mapping
    of the members to [None], in alphabetical order.  A list of integers and
    booleans only, and the list [[None]], give a mapping whose keys are not
    strings: [Unsupported].  Every other list raises [TypeError]: [sorted]
    compares each member with another one, and a string with a number,
    [None] with anything and a dict with anything cannot be compared; lists
    can, and a single member is not compared at all, but a list or a dict is
    then refused as a key, being unhashable. *)
Definition listify (l : list value) : exn + value :=
  match strings_of l with
  | Some ss => inr (PDict (to_None (sorted ss) []))
  | None =>
      if numbers_only l then inl Unsupported
      else match l with
           | [PNone] => inl Unsupported
           | _ => inl TypeError
           end
  end.

(** The first lines of [__setattr__]: a non-empty list becomes a mapping of
    its members to [None], then an integer becomes its string. *)
Definition normalize (v : value) : exn + value :=
  match (match v with
         | PList ((_ :: _) as l) => listify l
         | _ => inr v
         end) with
  | inl e => inl e
  | inr (PInt z) => inr (PStr (str_of_int z))
  | inr v' => inr v'
  end.

Definition _is_list (thingy : value) : bool :=
  match thingy with
  | PDict d => negb (any (values d))
  | _ => false
  end.

Definition keys_of (v : value) : list string :=
  match as_mapping v with Some d => keys d | None => [] end.

(** [set(a).difference(set(b))], in the order of [a]. *)
Definition difference (a b : list string) : list string :=
  filter (fun x => negb (existsb (String.eqb x) b)) a.

Definition nonempty (s : string) : bool := negb (String.eqb s EmptyString).

(** The message passed to [notify] at the end of [__setattr__]. *)
Definition change_message (initial_value v : value) : string :=
  if _is_list initial_value && _is_list v then
    let adding :=
      join ", " (map (append "+")
                     (sorted (difference (keys_of v) (keys_of initial_value)))) in
    let deleting :=
      join ", " (map (append "-")
                     (sorted (difference (keys_of initial_value) (keys_of v)))) in
    if nonempty adding && nonempty deleting
    then adding ++ ", " ++ deleting
    else adding ++ deleting
  else if is_None initial_value && _is_list v then
    join ", " (map (append "+") (sorted (keys_of v)))
  else str initial_value ++ " --> " ++ str v.

(** [created[0:4] == "1970"]: a string is sliced and compared, the slice of
    a list is never equal to a string, anything else cannot be sliced. *)
Definition starts_1970 (created : value) : option bool :=
  match created with
  | PStr s => Some (String.eqb (substring 0 4 s) "1970")
  | PList _ => Some false
  | _ => None
  end.

Definition signature_block (publisher sig : string) : value :=
  PDict [("additional",
          PList [PDict [("alg", PStr "RS256"); ("name", PNone);
                        ("typ", PStr "JWS"); ("value", PStr EmptyString)]]);
         ("publisher",
          PDict [("alg", PStr "RS256"); ("name", PStr publisher);
                 ("typ", PStr "JWS"); ("value", PStr sig)])].

Definition no_display_level : exn :=
  ValueError "Attempted to sign attribute without selecting display level".

(** The display level of an attribute that is signed: its own, or else the
    global one, written into the metadata [m]; with neither, an error. *)
Definition resolve_display (w : world) (display : value) (m : dict)
  : exn + dict :=
  if is_None display then
    match DISPLAY_LEVEL w with
    | Some level => inr (dict_set "display" (PStr level) m)
    | None => inl no_display_level
    end
  else inr m.

(** [key = "value" if "value" in self.data else "values"]. *)
Definition value_key (data : dict) : string :=
  if dict_has "value" data then "value" else "values".

(** [self.data[key] == v or (self.data[key] is None and v in (None, [], {}))]. *)
Definition nothing_to_set (current v : value) : bool :=
  py_eq current v
  || (is_None current
      && existsb (fun e => py_eq e v) [PNone; PList []; PDict []]).

Section Signing.

(** [jws.sign(data, key, algorithm="RS256")] of python-jose, and the text
    [time.strftime("%Y-%m-%dT%H:%M:%S.000Z", time.gmtime())] gives at the
    n-th reading of the clock. *)
Variable jws_sign : dict -> value -> string.
Variable gmtime_stamp : nat -> string.

(** [__setattr__] from the timestamp update on: the value is stored and the
    attribute has a [signature]. *)
Definition stamp_and_sign (data : dict) (name : string)
    (initial_value v : value) (st : state) : dict * state * option exn :=
  let timestamp := PStr (gmtime_stamp (ticks (fst st))) in
  let w := tick (fst st) in
  let notes := snd st in
  match dict_get "metadata" data with
  | None => (data, (w, notes), Some (KeyError "metadata"))
  | Some (PDict m) =>
      match dict_get "created" m with
      | None => (data, (w, notes), Some (KeyError "created"))
      | Some created =>
          match starts_1970 created with
          | None => (data, (w, notes), Some TypeError)
          | Some sentinel =>
              let m := if sentinel then dict_set "created" timestamp m else m in
              let m := dict_set "last_modified" timestamp m in
              let data := dict_set "metadata" (PDict m) data in
              match dict_get "display" m with
              | None => (data, (w, notes), Some (KeyError "display"))
              | Some display =>
                  match resolve_display w display m with
                  | inl e => (data, (w, notes), Some e)
                  | inr m =>
                      let data := dict_set "metadata" (PDict m) data in
                      match PUBLISHER_SIGNING_KEY w with
                      | None =>
                          (data, (w, notes),
                           Some (RuntimeError "Unable to load signing key"))
                      | Some key =>
                          let data := dict_del "signature" data in
                          match PUBLISHER_NAME w with
                          | None =>
                              (data, (w, notes),
                               Some (KeyError "PUBLISHER_NAME"))
                          | Some publisher =>
                              let data :=
                                dict_set "signature"
                                  (signature_block publisher (jws_sign data key))
                                  data in
                              (data,
                               (w, (notes ++ [(name, change_message initial_value v)])%list),
                               None)
                          end
                      end
                  end
              end
          end
      end
  | Some _ => (data, (w, notes), Some TypeError)
  end.

(** [SignableAttribute.__setattr__(k, v)] for [k] in [("value", "values")],
    the only attribute the module assigns after construction. *)
Definition SignableAttribute_setattr (data : dict) (name : string)
    (v : value) (st : state) : dict * state * option exn :=
  match normalize v with
  | inl e => (data, st, Some e)
  | inr v =>
      let key := value_key data in
      match dict_get key data with
      | None => (data, st, Some (KeyError key))
      | Some current =>
          if nothing_to_set current v then (data, st, None)
          else
            let initial_value := current in
            let data := dict_set key v data in
            if negb (dict_has "signature" data) then (data, st, None)
            else stamp_and_sign data name initial_value v st
      end
  end.

(** A sequence of writes to one attribute, each caller going on after an
    exception. *)
Fixpoint write_all (data : dict) (name : string) (vs : list value) (st : state)
  : dict * state :=
  match vs with
  | [] => (data, st)
  | v :: rest =>
      let '(data', st', _) := SignableAttribute_setattr data name v st in
      write_all data' name rest st'
  end.

(** ** ProfileDict *)

Definition overwrite_error : exn :=
  ValueError "Attempted to overwrite profile dictionary with single value".

(** [ProfileDict.__setitem__(k, v)]: an existing [SignableAttribute] takes
    [v] as its value, an existing [ProfileDict] refuses, any other existing
    item is left as it is, and a new key is inserted. *)
Definition ProfileDict_setitem (data : dict) (k : string) (v : value)
    (st : state) : dict * state * option exn :=
  match dict_get k data with
  | Some (SignableAttribute a name) =>
      let '(a', st', r) := SignableAttribute_setattr a name v st in
      (dict_set k (SignableAttribute a' name) data, st', r)
  | Some (ProfileDict _) => (data, st, Some overwrite_error)
  | Some _ => (data, st, None)
  | None => (dict_set k v data, st, None)
  end.

(** ** The operations [_walk] applies to its output node *)

(** [output_node[k] = v]. *)
Definition node_setitem (out : value) (k : string) (v : value) (st : state)
  : value * state * option exn :=
  match out with
  | PDict d => (PDict (dict_set k v d), st, None)
  | ProfileDict d =>
      let '(d', st', r) := ProfileDict_setitem d k v st in
      (ProfileDict d', st', r)
  | SignableAttribute d name => (SignableAttribute (dict_set k v d) name, st, None)
  | _ => (out, st, Some TypeError)
  end.

(** [output_node.get(k)]. *)
Definition node_get (out : value) (k : string) : exn + value :=
  match as_mapping out with
  | Some d => inr (get_or_None k d)
  | None => inl AttributeError
  end.

(** [s in t] for strings. *)
Fixpoint substring_of (s t : string) : bool :=
  prefix s t || match t with
                | EmptyString => false
                | String _ t' => substring_of s t'
                end.

(** [k in output_node]. *)
Definition node_contains (out : value) (k : string) : exn + bool :=
  match out with
  | PDict d | ProfileDict d => inr (dict_has k d)
  | SignableAttribute d _ => SignableAttribute_contains k d
  | PStr s => inr (substring_of k s)
  | PList l => inr (existsb (fun e => py_eq e (PStr k)) l)
  | _ => inl TypeError
  end.

(** [output_node[k]]. *)
Definition node_getitem (out : value) (k : string) : exn + value :=
  match as_mapping out with
  | Some d =>
      match dict_get k d with
      | Some v => inr v
      | None => inl (KeyError k)
      end
  | None => inl TypeError
  end.

(** The object found at [output_node[k]] was changed in place. *)
Definition node_replace (out : value) (k : string) (v : value) : value :=
  match out with
  | PDict d => PDict (dict_set k v d)
  | ProfileDict d => ProfileDict (dict_set k v d)
  | SignableAttribute d name => SignableAttribute (dict_set k v d) name
  | _ => out
  end.

(** ** Profile._walk *)

Definition walker : Type :=
  string -> value -> value -> state -> value * state * option exn.

(** The [for k, v in input_node.items()] loop around one step; an exception
    ends it. *)
Definition for_items (step : walker) : dict -> value -> state ->
                                       value * state * option exn :=
  fix loop (items : dict) (out : value) (st : state) :=
    match items with
    | [] => (out, st, None)
    | (k, v) :: rest =>
        match step k v out st with
        | (out', st', None) => loop rest out' st'
        | raised => raised
        end
    end.

Definition invalid_attribute (k : string) : exn :=
  ValueError ("Attempted to set invalid attribute " ++ k ++ " into profile.").

(** [self._walk(v, output_node[k])], the node at [k] being changed in place. *)
Definition descend (body : value -> state -> value * state * option exn)
    (out : value) (k : string) (st : state) : value * state * option exn :=
  match node_getitem out k with
  | inl e => (out, st, Some e)
  | inr child =>
      let '(child', st', r) := body child st in
      (node_replace out k child', st', r)
  end.

(** One turn of the loop of [_walk], its seven branches in source order. *)
Fixpoint walk_item (k : string) (v : value) (out : value) (st : state)
    {struct v} : value * state * option exn :=
  match v with
  | PStr _ => node_setitem out k v st
  | _ =>
      match node_get out k with
      | inl e => (out, st, Some e)
      | inr (SignableAttribute a name) =>
          if negb (py_eq (SignableAttribute_value a) v) then
            let '(a', st', r) := SignableAttribute_setattr a name v st in
            (node_replace out k (SignableAttribute a' name), st', r)
          else (out, st, None)
      | inr _ =>
          match v with
          | SignableAttribute a _ =>
              match SignableAttribute_contains "value" a with
              | inl e => (out, st, Some e)
              | inr _ => node_setitem out k (SignableAttribute_value a) st
              end
          | PDict d =>
              if dict_has "value" d || dict_has "values" d then
                node_setitem out k (SignableAttribute d k) st
              else if is_None (get_or_None "metadata" d)
                      && is_None (get_or_None "signature" d) then
                match node_contains out k with
                | inl e => (out, st, Some e)
                | inr present =>
                    match (if present then (out, st, None)
                           else node_setitem out k (ProfileDict []) st) with
                    | (out', st', None) =>
                        descend (for_items walk_item d) out' k st'
                    | raised => raised
                    end
                end
              else (out, st, Some (invalid_attribute k))
          | ProfileDict d =>
              match node_setitem out k (PDict []) st with
              | (out', st', None) => descend (for_items walk_item d) out' k st'
              | raised => raised
              end
          | _ => (out, st, Some (invalid_attribute k))
          end
      end
  end.

(** [Profile._walk(input_node, output_node)]. *)
Definition _walk (input_node out : value) (st : state)
  : value * state * option exn :=
  match as_mapping input_node with
  | Some items => for_items walk_item items out st
  | None => (out, st, Some AttributeError)
  end.

(** ** Profile *)

(** The instance attributes of a [Profile]: the flat view [self.data], the
    raw tree [self._profile], the keys of the retrieved document, the
    notifications, and the other entries of the dictionary of the instance,
    which [setattr] has put there. *)
Record Profile : Type := mkProfile {
  data : dict;
  _profile : value;
  _base_keys : list string;
  __notifications : list (string * string);
  attributes : dict
}.

Definition dict_of (v : value) : dict :=
  match as_mapping v with Some d => d | None => [] end.

(** [Profile.__init__], from the document [get_profile] returned.  The two
    walks of the constructor write to no attribute, so nothing is notified
    before [__notifications] exists. *)
Definition Profile_init (retrieved_profile : dict) (allow_inactive : bool)
    (w : world) : world * (exn + Profile) :=
  match _walk (PDict retrieved_profile) (ProfileDict []) (w, []) with
  | (_, st, Some e) => (fst st, inl e)
  | (raw, st, None) =>
      match _walk raw (PDict []) (fst st, []) with
      | (_, st', Some e) => (fst st', inl e)
      | (flat, st', None) =>
          let p := mkProfile (dict_of flat) raw (keys retrieved_profile) [] [] in
          if negb allow_inactive then
            match dict_get "active" (dict_of flat) with
            | None => (fst st', inl (KeyError "active"))
            | Some (PBool false) => (fst st', inl InactiveProfileException)
            | Some _ => (fst st', inr p)
            end
          else (fst st', inr p)
      end
  end.

(** What [getattr(self, k)] finds on a [Profile]: a value, the keys view
    [_base_keys], the list of notifications, the dictionary of the instance,
    or an attribute of the class (a method, bound to the instance; the
    docstring; the class itself for [__class__]). *)
Inductive found : Type :=
| Item (v : value)
| Keys (ks : list string)
| Notes (ns : list (string * string))
| InstanceDict
| OfClass (name : string).

(** The names the body of [class Profile] defines. *)
Definition defined_by_Profile : list string :=
  ["__module__"; "__doc__"; "__init__"; "__getitem__"; "__setitem__";
   "__str__"; "_walk"; "is_empty"; "json"; "notify"; "publish"; "sign"].

(** The names of the attributes [Profile] inherits from [UserDict], from the
    abstract classes above it and from [object], [__class__], [__dict__] and
    [__weakref__] apart; they depend on the version of Python. *)
Variable inherited : string -> bool.

(** [getattr(self, k)]: the three descriptors of the type that take
    precedence, then the dictionary of the instance, then the class.
    [__weakref__] is [None]: nothing holds a weak reference to a profile. *)
Definition Profile_getattr (p : Profile) (k : string) : exn + found :=
  if String.eqb k "__class__" then inr (OfClass k)
  else if String.eqb k "__dict__" then inr InstanceDict
  else if String.eqb k "__weakref__" then inr (Item PNone)
  else if String.eqb k "data" then inr (Item (PDict (data p)))
  else if String.eqb k "_profile" then inr (Item (_profile p))
  else if String.eqb k "_base_keys" then inr (Keys (_base_keys p))
  else if String.eqb k "_Profile__notifications" then
    inr (Notes (__notifications p))
  else match dict_get k (attributes p) with
       | Some v => inr (Item v)
       | None =>
           if existsb (String.eqb k) defined_by_Profile || inherited k
           then inr (OfClass k)
           else inl AttributeError
       end.

(** [Profile.__getitem__]: the flat view first, then [getattr(self, k)]. *)
Definition Profile_getitem (p : Profile) (k : string) : exn + found :=
  match dict_get k (data p) with
  | Some v => inr (Item v)
  | None => Profile_getattr p k
  end.

(** The methods that are called through the instance, by [publish], by
    [sign] or by the user of a profile, and whose call is followed here: an
    entry of the same name in the dictionary of the instance hides the
    method, and the call then raises [TypeError], no value being
    callable. *)
Definition called (k : string) : bool :=
  existsb (String.eqb k) ["_walk"; "sign"; "json"; "publish"].

(** The names whose rebinding is not followed: three of the instance
    attributes, whose fields here hold what the constructor gives them, and
    the methods [notify], which the attributes of the raw tree call, and
    [is_empty]. *)
Definition unfollowed (k : string) : bool :=
  existsb (String.eqb k)
          ["data"; "_base_keys"; "_Profile__notifications"; "notify";
           "is_empty"].

(** The names the operations of this file read through [self]. *)
Definition rebinds (k : string) : bool :=
  String.eqb k "_profile" || called k || unfollowed k.

(** The names [setattr] does not store in the dictionary of the instance:
    the type has a descriptor for them. *)
Definition descriptor (k : string) : bool :=
  existsb (String.eqb k) ["__class__"; "__dict__"; "__weakref__"].

(** [setattr(self, k, v)], which is [object.__setattr__].  [__class__] takes
    a class only and [__dict__] a [dict] only, [__weakref__] cannot be
    written.  Any other name becomes an entry of the dictionary of the
    instance: [_profile] is the raw tree from then on, and a name of
    [called] hides that method.  A [dict] given as [__dict__] replaces all
    the attributes of the instance, and a name of [unfollowed] changes what
    the methods read or call in a way that [Profile] does not hold: the
    result is then [Unsupported]. *)
Definition Profile_setattr (p : Profile) (k : string) (v : value)
  : Profile * option exn :=
  if String.eqb k "__class__" then (p, Some TypeError)
  else if String.eqb k "__dict__" then
    match v with
    | PDict _ => (p, Some Unsupported)
    | _ => (p, Some TypeError)
    end
  else if String.eqb k "__weakref__" then (p, Some AttributeError)
  else if unfollowed k then (p, Some Unsupported)
  else if String.eqb k "_profile" then
    (mkProfile (data p) v (_base_keys p) (__notifications p) (attributes p),
     None)
  else
    (mkProfile (data p) (_profile p) (_base_keys p) (__notifications p)
               (dict_set k v (attributes p)), None).

(** [Profile.__setitem__]: a base key is set in the flat view, any other key
    goes to [setattr(self, k, v)]. *)
Definition Profile_setitem (p : Profile) (k : string) (v : value)
  : Profile * option exn :=
  if existsb (String.eqb k) (_base_keys p) then
    (mkProfile (dict_set k v (data p)) (_profile p) (_base_keys p)
               (__notifications p) (attributes p), None)
  else Profile_setattr p k v.

(** No method is hidden by an entry of the dictionary of the instance. *)
Definition intact (p : Profile) : bool :=
  forallb (fun k => negb (dict_has k (attributes p)))
          ["_walk"; "sign"; "json"; "publish"].

(** [Profile.notify]. *)
Definition notify (p : Profile) (attribute message : string) : Profile :=
  mkProfile (data p) (_profile p) (_base_keys p)
            (__notifications p ++ [(attribute, message)]) (attributes p).

(** [p.sign(display_level)]: [Profile.sign], unless an entry of the
    instance hides it; so for [self._walk(...)] in it. *)
Definition sign (p : Profile) (display_level : option string) (w : world)
  : Profile * world * option exn :=
  if dict_has "sign" (attributes p) then (p, w, Some TypeError)
  else
    let w := match display_level with
             | Some level => set_DISPLAY_LEVEL (Some level) w
             | None => w
             end in
    if dict_has "_walk" (attributes p) then (p, w, Some TypeError)
    else
      let '(raw, st, r) :=
        _walk (PDict (data p)) (_profile p) (w, __notifications p) in
      (mkProfile (data p) raw (_base_keys p) (snd st) (attributes p), fst st, r).

(** ** JSON *)

(** The tree [json.dumps(..., default=dict)] writes and [json.loads] reads
    back: every [ProfileDict] and every [SignableAttribute] is replaced by
    the dictionary of its items.  The text between the two is left out. *)
Fixpoint to_plain (v : value) : value :=
  let entries :=
    fix entries (d : dict) : dict :=
      match d with
      | [] => []
      | (k, x) :: t => (k, to_plain x) :: entries t
      end in
  match v with
  | PList l =>
      PList ((fix members (l : list value) : list value :=
                match l with
                | [] => []
                | x :: t => to_plain x :: members t
                end) l)
  | PDict d | SignableAttribute d _ | ProfileDict d => PDict (entries d)
  | other => other
  end.

(** ** The client of the Change API

    [cis_publishers/common/people.py], as far as [publish] enters it. *)

(** A call of [requests.post]: the URL, the [Authorization] header and the
    [json] body. *)
Record request : Type := mkRequest {
  url : string;
  authorization : string;
  json_body : value
}.

(** The module globals of [people.py] that [change_profile] reads. *)
Record people : Type := mkPeople {
  BEARER_TOKEN : value;
  CHANGE_API_URL : value
}.

Definition missing_required : exn :=
  ValueError "Can't send to Change API without a user_id, primary_email, and primary_username in profile".

(** The lines of [change_profile] before the request: the [user_id] of a
    profile that has it, a [primary_email] and a [primary_username], none of
    them [None]. *)
Definition required_entries (profile : value) : exn + value :=
  match node_getitem profile "user_id" with
  | inl e => inl e
  | inr leaf =>
      match node_getitem leaf "value" with
      | inl e => inl e
      | inr user_id =>
          match node_getitem profile "primary_email" with
          | inl e => inl e
          | inr primary_email =>
              match node_getitem profile "primary_username" with
              | inl e => inl e
              | inr primary_username =>
                  if py_in PNone [user_id; primary_email; primary_username]
                  then inl missing_required
                  else inr user_id
              end
          end
      end
  end.

(** The request [change_profile] makes for a profile. *)
Definition change_request (api : people) (user_id profile : value) : request :=
  mkRequest (str (CHANGE_API_URL api) ++ "/v2/user?user_id=" ++ str user_id)
            ("Bearer " ++ str (BEARER_TOKEN api)) profile.

(** What [change_profile] logs for the answer [r] of the Change API. *)
Definition answer_line (user_id : value) (r : dict) : string * string :=
  if py_eq (get_or_None "status_code" r) (PInt 200) then
    ("debug", "Successfully updated LDAP profile `" ++ str user_id ++ "`")
  else
    ("error", "Unable to update LDAP profile `" ++ str user_id ++ "`"
              ++ (if dict_has "code" r
                  then ": [" ++ str (get_or_None "code" r) ++ "] "
                       ++ str (get_or_None "description" r)
                  else EmptyString)).

(** [requests.post(url, headers=..., json=profile).json()]: what the Change
    API answers to a request, given the bodies posted before it; [None]
    when the call or the decoding of the answer raises. *)
Variable api : people.
Variable respond : list value -> request -> option value.

(** [change_profile(profile)] for a [profile] given as JSON text, as
    [publish] gives it: [profile] here is the tree [json.loads] reads from
    the text.  The body of the request is recorded in [submitted]. *)
Definition change_profile (profile : value) (w : world) : world * (exn + bool) :=
  match required_entries profile with
  | inl e => (w, inl e)
  | inr user_id =>
      let posted := add_submitted profile w in
      match respond (submitted w) (change_request api user_id profile) with
      | None => (posted, inl RequestException)
      | Some answer =>
          match as_mapping (to_plain answer) with
          | None => (posted, inl AttributeError)
          | Some r => (add_log (fst (answer_line user_id r))
                               (snd (answer_line user_id r)) posted,
                       inr (py_eq (get_or_None "status_code" r) (PInt 200)))
          end
      end
  end.

(** [Profile.json], as the tree of the text it returns. *)
Definition Profile_json (p : Profile) : value := to_plain (_profile p).

(** [sign] calls made one after the other, none beginning before the one
    before it has ended, each caller going on after an exception: the
    process state they leave. *)
Fixpoint signs (calls : list (Profile * option string)) (w : world) : world :=
  match calls with
  | [] => w
  | (p, display_level) :: rest =>
      signs rest (snd (fst (sign p display_level w)))
  end.

(** The [logger.info] comprehension of [publish]. *)
Definition log_updates (email : string) (notes : list (string * string))
    (w : world) : world :=
  fold_left
    (fun w n => add_log "info" ("Updating " ++ fst n ++ " on " ++ email ++ ": "
                                ++ snd n) w)
    notes w.

(** [p.publish(display_level, dry_run)]: [Profile.publish], unless an entry
    of the instance hides it.  An exception of [sign], of the log lines, of
    [self.json()] or of [change_profile] ends it; what [change_profile]
    returns is dropped. *)
Definition publish (p : Profile) (display_level : option string)
    (dry_run : bool) (w : world) : Profile * world * (exn + value) :=
  if dict_has "publish" (attributes p) then (p, w, inl TypeError)
  else
    match sign p display_level w with
    | (p, w, Some e) => (p, w, inl e)
    | (p, w, None) =>
        let notes := __notifications p in
        match notes, dict_get "primary_email" (data p) with
        | _ :: _, None => (p, w, inl (KeyError "primary_email"))
        | _, email =>
            let w := match email with
                     | Some e => log_updates (str e) (sorted_pairs notes) w
                     | None => w
                     end in
            if (match notes with [] => false | _ => true end)
               && negb dry_run
               && (match DRY_RUN w with None => true | Some _ => false end)
            then
              if dict_has "json" (attributes p) then (p, w, inl TypeError)
              else
                match change_profile (Profile_json p) w with
                | (w, inl e) => (p, w, inl e)
                | (w, inr _) => (p, w, inr PNone)
                end
            else
              match notes, email with
              | [], None => (p, w, inl (KeyError "primary_email"))
              | [], Some e =>
                  (p, add_log "debug" ("Skipping publication of " ++ str e
                                       ++ " (no changes)") w, inr PNone)
              | _, _ => (p, w, inr PNone)
              end
        end
    end.

(** ** Profile.is_empty *)

(** [self.data[a]] and [self.data[a][b]]. *)
Definition field (d : dict) (path : string * option string) : exn + value :=
  match dict_get (fst path) d with
  | None => inl (KeyError (fst path))
  | Some x =>
      match snd path with
      | None => inr x
      | Some b =>
          match as_mapping x with
          | Some d' =>
              match dict_get b d' with
              | Some y => inr y
              | None => inl (KeyError b)
              end
          | None => inl TypeError
          end
      end
  end.

(** The members of the tuple given to [any], but the last, in order. *)
Definition listed_fields : list (string * option string) :=
  [("access_information", Some "access_provider");
   ("access_information", Some "hris");
   ("access_information", Some "ldap");
   ("access_information", Some "mozilliansorg");
   ("alternative_name", None);
   ("description", None);
   ("identities", Some "bugzilla_mozilla_org_id");
   ("identities", Some "bugzilla_mozilla_org_primary_email");
   ("identities", Some "custom_1_primary_email");
   ("identities", Some "custom_2_primary_email");
   ("identities", Some "custom_3_primary_email");
   ("identities", Some "mozilla_ldap_id");
   ("identities", Some "mozilla_ldap_primary_email");
   ("identities", Some "mozilla_posix_id");
   ("identities", Some "mozilliansorg_id");
   ("languages", None);
   ("location", None);
   ("pgp_public_keys", None);
   ("phone_numbers", None);
   ("picture", None);
   ("pronouns", None);
   ("staff_information", Some "cost_center");
   ("staff_information", Some "director");
   ("staff_information", Some "manager");
   ("staff_information", Some "office_location");
   ("staff_information", Some "staff");
   ("staff_information", Some "team");
   ("staff_information", Some "title");
   ("staff_information", Some "worker_type");
   ("staff_information", Some "wpr_desk_number");
   ("ssh_public_keys", None);
   ("tags", None);
   ("timezone", None);
   ("uris", None)].

(** What [for username in x] runs over: the keys of a mapping, the members
    of a list, the characters of a string. *)
Definition iterate (x : value) : exn + list value :=
  match x with
  | PDict d | SignableAttribute d _ | ProfileDict d => inr (map PStr (keys d))
  | PList l => inr l
  | PStr s => inr (map (fun c => PStr (String c EmptyString)) (list_ascii_of_string s))
  | _ => inl TypeError
  end.

(** [[u for u in l if not u.startswith("HACK#")]]. *)
Fixpoint without_hack (l : list value) : exn + list value :=
  match l with
  | [] => inr []
  | PStr u :: t =>
      match without_hack t with
      | inl e => inl e
      | inr r => inr (if prefix "HACK#" u then r else PStr u :: r)
      end
  | _ :: _ => inl AttributeError
  end.

Definition usernames_of (d : dict) : exn + list value :=
  match dict_get "usernames" d with
  | None => inl (KeyError "usernames")
  | Some PNone => inr []
  | Some x =>
      match iterate x with
      | inl e => inl e
      | inr l => without_hack l
      end
  end.

(** The tuple members are evaluated in order; the first failure is raised. *)
Fixpoint fields (d : dict) (paths : list (string * option string))
  : exn + list value :=
  match paths with
  | [] => inr []
  | p :: t =>
      match field d p with
      | inl e => inl e
      | inr x =>
          match fields d t with
          | inl e => inl e
          | inr xs => inr (x :: xs)
          end
      end
  end.

(** [Profile.is_empty]. *)
Definition is_empty (p : Profile) : exn + bool :=
  match usernames_of (data p) with
  | inl e => inl e
  | inr usernames =>
      match fields (data p) listed_fields with
      | inl e => inl e
      | inr xs => inr (negb (any (xs ++ [PList usernames])))
      end
  end.

End Signing.

(** ** Sample data

    A signer and a clock, a leaf as the Person API sends it, and small
    documents, used where a statement is evaluated on a concrete input. *)

Definition sample_jws (d : dict) (key : value) : string := "signed".

Definition sample_clock (n : nat) : string :=
  "2020-10-10T10:10:" ++ str_of_int (Z.of_nat (10 + n)) ++ ".000Z".

Definition epoch : string := "1970-01-01T00:00:00.000Z".

Definition sample_metadata (display : value) : value :=
  PDict [("classification", PStr "PUBLIC"); ("created", PStr epoch);
         ("display", display); ("last_modified", PStr epoch);
         ("verified", PBool false)].

Definition unsigned_block : value :=
  PDict [("additional", PList []);
         ("publisher", PDict [("alg", PStr "RS256"); ("name", PNone);
                              ("typ", PStr "JWS"); ("value", PStr EmptyString)])].

(** A signed leaf [{"metadata": ..., "signature": ..., key: v}]. *)
Definition sample_leaf (key : string) (v : value) : dict :=
  [("metadata", sample_metadata PNone); ("signature", unsigned_block); (key, v)].

(** A leaf with metadata and a value, and no [signature]. *)
Definition unsigned_leaf : dict :=
  [("metadata", sample_metadata (PStr "public")); ("value", PStr "old")].

Definition fresh_world : world :=
  mkWorld None (Some (PStr "private key")) (Some "ldap") None 0 [] [].

Definition abc : value := PDict [("a", PNone); ("b", PNone); ("c", PNone)].

Definition sample_document : dict :=
  [("schema", PStr "https://person-api.sso.mozilla.com/schema/v2/profile");
   ("active", PDict (sample_leaf "value" (PBool true)));
   ("primary_email", PDict (sample_leaf "value" (PStr "jdoe@mozilla.com")));
   ("pgp_public_keys", PDict (sample_leaf "values" PNone));
   ("access_information", PDict [("ldap", PDict (sample_leaf "values" abc))])].

Definition empty_profile : Profile := mkProfile [] (ProfileDict []) [] [] [].

Definition profile_of (r : world * (exn + Profile)) : Profile :=
  match snd r with inr p => p | inl _ => empty_profile end.

Definition sample_profile : Profile :=
  profile_of (Profile_init sample_jws sample_clock sample_document false fresh_world).

(** A flat view with every field [is_empty] reads, all of them [None]. *)
Definition blank_flat (usernames : value) : dict :=
  [("access_information",
    PDict [("access_provider", PNone); ("hris", PNone); ("ldap", PNone);
           ("mozilliansorg", PNone)]);
   ("alternative_name", PNone);
   ("description", PNone);
   ("identities",
    PDict [("bugzilla_mozilla_org_id", PNone);
           ("bugzilla_mozilla_org_primary_email", PNone);
           ("custom_1_primary_email", PNone);
           ("custom_2_primary_email", PNone);
           ("custom_3_primary_email", PNone);
           ("mozilla_ldap_id", PNone);
           ("mozilla_ldap_primary_email", PNone);
           ("mozilla_posix_id", PNone);
           ("mozilliansorg_id", PNone)]);
   ("languages", PNone);
   ("location", PNone);
   ("pgp_public_keys", PNone);
   ("phone_numbers", PNone);
   ("picture", PNone);
   ("pronouns", PNone);
   ("staff_information",
    PDict [("cost_center", PNone); ("director", PNone); ("manager", PNone);
           ("office_location", PNone); ("staff", PNone); ("team", PNone);
           ("title", PNone); ("worker_type", PNone);
           ("wpr_desk_number", PNone)]);
   ("ssh_public_keys", PNone);
   ("tags", PNone);
   ("timezone", PNone);
   ("uris", PNone);
   ("usernames", usernames)].

Definition blank_profile (usernames : value) : Profile :=
  mkProfile (blank_flat usernames) (ProfileDict []) [] [] [].

(** ** Reading the raw tree *)

(** The data of the attribute at key [k] of a [ProfileDict]. *)
Definition leaf_at (raw : value) (k : string) : dict :=
  match dict_get k (dict_of raw) with
  | Some (SignableAttribute d _) => d
  | _ => []
  end.

(** [data["metadata"][field]]. *)
Definition metadata_of (field : string) (data : dict) : option value :=
  match dict_get "metadata" data with
  | Some (PDict m) => dict_get field m
  | _ => None
  end.

Definition display_of : dict -> option value := metadata_of "display".
Definition created_of : dict -> option value := metadata_of "created".
Definition last_modified_of : dict -> option value := metadata_of "last_modified".

(** Two profiles with a pending change each. *)
Definition with_flat (p : Profile) (k : string) (v : value) : Profile :=
  fst (Profile_setitem p k v).

Definition profile_A : Profile :=
  with_flat sample_profile "primary_email" (PStr "jdoe@mozilla.org").

Definition profile_B : Profile :=
  with_flat sample_profile "pgp_public_keys" (PList [PStr "0xBEEF"]).

(** A document with the entries [change_profile] requires, the globals of
    [people.py] after the bearer token has been fetched, and a Change API
    that accepts every request. *)
Definition person_document : dict :=
  [("schema", PStr "https://person-api.sso.mozilla.com/schema/v2/profile");
   ("user_id", PDict (sample_leaf "value" (PStr "ad|Mozilla-LDAP|jdoe")));
   ("active", PDict (sample_leaf "value" (PBool true)));
   ("primary_email", PDict (sample_leaf "value" (PStr "jdoe@mozilla.com")));
   ("primary_username", PDict (sample_leaf "value" (PStr "jdoe")));
   ("pgp_public_keys", PDict (sample_leaf "values" PNone))].

Definition sample_api : people :=
  mkPeople (PStr "token") (PStr "https://change.api.sso.mozilla.com").

Definition sample_respond (posted : list value) (r : request) : option value :=
  Some (PDict [("status_code", PInt 200)]).

Definition person_profile : Profile :=
  profile_of (Profile_init sample_jws sample_clock person_document false fresh_world).

Definition person_A : Profile :=
  with_flat person_profile "primary_email" (PStr "jdoe@mozilla.org").

(** ** What publish writes to the log *)

Definition update_line (email : string) (n : string * string) : string * string :=
  ("info", "Updating " ++ fst n ++ " on " ++ email ++ ": " ++ snd n).

Definition skip_line (email : string) : string * string :=
  ("debug", "Skipping publication of " ++ email ++ " (no changes)").

(** The order of the attribute keys. *)
Definition by_key (a b : string * string) : Prop :=
  String.leb (fst a) (fst b) = true.

Definition has_notes (notes : list (string * string)) : bool :=
  match notes with [] => false | _ => true end.

(** ** Set-shaped values *)

(** The alphabetical order of strings. *)
Definition alphabetical (a b : string) : Prop := String.leb a b = true.

(** [+m] for the members added and [-m] for the members removed. *)
Definition plus_minus (added removed : list string) : list string :=
  (map (append "+") added ++ map (append "-") removed)%list.

Definition bcd : value := PDict [("b", PNone); ("c", PNone); ("d", PNone)].

Definition staff_world : world :=
  mkWorld (Some "staff") (Some (PStr "private key")) (Some "ldap") None 0 [] [].

(** ** Attributes that can be signed *)

(** The shape [__setattr__] takes for granted when it signs: a [metadata]
    dict with [created] text and a [display] entry, a [signature], and a
    [value] or [values]. *)
Definition well_formed_leaf (data : dict) : bool :=
  match dict_get "metadata" data with
  | Some (PDict m) =>
      match dict_get "created" m with
      | Some created =>
          match starts_1970 created with
          | Some _ => dict_has "display" m
          | None => false
          end
      | None => false
      end
  | _ => false
  end
  && dict_has "signature" data
  && dict_has (value_key data) data.

(** The signing key and the publisher name are there. *)
Definition signer_ready (w : world) : bool :=
  match PUBLISHER_SIGNING_KEY w, PUBLISHER_NAME w with
  | Some _, Some _ => true
  | _, _ => false
  end.

(** The display level a signed attribute ends with: its own, or else the
    global one. *)
Definition resolved_level (data : dict) (w : world) : option value :=
  match display_of data with
  | Some PNone => option_map PStr (DISPLAY_LEVEL w)
  | other => other
  end.

(** No dictionary inside the value holds a key twice. *)
Fixpoint wf_value (v : value) : Prop :=
  match v with
  | PList l =>
      (fix members (l : list value) : Prop :=
         match l with
         | [] => True
         | x :: t => wf_value x /\ members t
         end) l
  | PDict d | SignableAttribute d _ | ProfileDict d =>
      NoDup (keys d)
      /\ (fix entries (d : dict) : Prop :=
            match d with
            | [] => True
            | (_, x) :: t => wf_value x /\ entries t
            end) d
  | _ => True
  end.

(** The metadata after the timestamp update of [__setattr__]. *)
Definition stamped (timestamp : string) (sentinel : bool) (m : dict) : dict :=
  dict_set "last_modified" (PStr timestamp)
           (if sentinel then dict_set "created" (PStr timestamp) m else m).

(** The comparison of the entries of one mapping with another mapping, as
    [py_eq] makes it. *)
Definition entries_eq (eq : value -> value -> bool) (d2 : dict) : dict -> bool :=
  fix all1 (l : dict) : bool :=
    match l with
    | [] => true
    | (k, v) :: t =>
        match dict_get k d2 with
        | Some w => eq v w
        | None => false
        end && all1 t
    end.

Definition empty_mapping_leaf : dict := sample_leaf "values" (PDict []).

(** ** The two views of a document *)

(** The flat reading of a raw node: an attribute gives its value, a
    [ProfileDict] the flat readings of its entries, a string itself. *)
Fixpoint flat_of (v : value) : value :=
  match v with
  | SignableAttribute a _ => SignableAttribute_value a
  | ProfileDict d =>
      PDict ((fix entries (d : dict) : dict :=
                match d with
                | [] => []
                | (k, x) :: t => (k, flat_of x) :: entries t
                end) d)
  | other => other
  end.

Definition flat_entries (d : dict) : dict :=
  map (fun kv => (fst kv, flat_of (snd kv))) d.

Definition has_value (a : dict) : bool :=
  dict_has "value" a || dict_has "values" a.

(** The entries of a raw tree as [_walk] builds it: strings, attributes
    with a [value] or [values], and nested [ProfileDict]s, no key twice. *)
Inductive raw_tree : dict -> Prop :=
| raw_nil : raw_tree []
| raw_str k s R :
    ~ In k (keys R) -> raw_tree R -> raw_tree ((k, PStr s) :: R)
| raw_leaf k a name R :
    has_value a = true -> ~ In k (keys R) -> raw_tree R ->
    raw_tree ((k, SignableAttribute a name) :: R)
| raw_node k R2 R :
    raw_tree R2 -> ~ In k (keys R) -> raw_tree R ->
    raw_tree ((k, ProfileDict R2) :: R).

(** The members of a list given to an attribute are strings. *)
Definition strings_only (v : value) : bool :=
  match v with
  | PList l => match strings_of l with Some _ => true | None => false end
  | _ => true
  end.

(** A flat view that has the shape of the raw tree, key by key: the
    unsigned string where the raw tree has one, any value where it has an
    attribute (a list with strings only), a nested mapping of the same
    shape where it has a [ProfileDict]. *)
Inductive conforms : dict -> dict -> Prop :=
| conforms_nil : conforms [] []
| conforms_str k s D R :
    ~ In k (keys R) -> conforms D R ->
    conforms ((k, PStr s) :: D) ((k, PStr s) :: R)
| conforms_leaf k v a name D R :
    strings_only v = true ->
    has_value a = true -> ~ In k (keys R) -> conforms D R ->
    conforms ((k, v) :: D) ((k, SignableAttribute a name) :: R)
| conforms_node k D2 R2 D R :
    conforms D2 R2 -> ~ In k (keys R) -> conforms D R ->
    conforms ((k, PDict D2) :: D) ((k, ProfileDict R2) :: R).

(** [v in (None, [], {})]. *)
Definition is_blank (v : value) : bool :=
  existsb (fun e => py_eq e v) [PNone; PList []; PDict []].

(** The set of the strings [ks] as a profile holds it: the mapping of each
    of them to [None]. *)
Definition set_of (ks : list string) : value :=
  PDict (map (fun s => (s, PNone)) ks).

(** What is read back as [r] from an attribute that held [current], after
    the flat value [v] was signed into it, in the words of the
    specification.  Where the attribute held a value equal to [v], it is
    that value.  Otherwise an integer is read back as its decimal string; a
    non-empty list of strings as a set, a value equal to the mapping of its
    members, each once, to [None]; [None], [[]] and [{}] as [None] where the
    attribute held [None]; and any other value as itself. *)
Definition reads_back (current v r : value) : Prop :=
  if py_eq current v then r = current
  else
    match v with
    | PInt z => r = PStr (str_of_int z)
    | PList (x :: l) =>
        exists ss ks,
          strings_of (x :: l) = Some ss
          /\ NoDup ks
          /\ (forall s, In s ks <-> In s ss)
          /\ py_eq r (set_of ks) = true
    | _ => if is_None current && is_blank v then r = PNone else r = v
    end.

(** The flat view [F] read back after the flat view [D] was signed into the
    raw tree [R]. *)
Inductive reads_back_all : dict -> dict -> dict -> Prop :=
| rb_nil : reads_back_all [] [] []
| rb_str k s D R F :
    reads_back_all D R F ->
    reads_back_all ((k, PStr s) :: D) ((k, PStr s) :: R) ((k, PStr s) :: F)
| rb_leaf k v a name r D R F :
    reads_back (SignableAttribute_value a) v r ->
    reads_back_all D R F ->
    reads_back_all ((k, v) :: D) ((k, SignableAttribute a name) :: R) ((k, r) :: F)
| rb_node k D2 R2 F2 D R F :
    reads_back_all D2 R2 F2 ->
    reads_back_all D R F ->
    reads_back_all ((k, PDict D2) :: D) ((k, ProfileDict R2) :: R)
                   ((k, PDict F2) :: F).

(** The raw tree [R'] after the flat view [D] was signed into the raw tree
    [R]: the same keys, the unsigned strings as they were, and at every
    attribute a relation [Q] between what the attribute was, the flat value
    and what the attribute is. *)
Inductive signed_as (Q : dict -> value -> dict -> Prop)
  : dict -> dict -> dict -> Prop :=
| signed_nil : signed_as Q [] [] []
| signed_str k s D R R' :
    signed_as Q D R R' ->
    signed_as Q ((k, PStr s) :: D) ((k, PStr s) :: R) ((k, PStr s) :: R')
| signed_leaf k v a a' name D R R' :
    Q a v a' ->
    signed_as Q D R R' ->
    signed_as Q ((k, v) :: D) ((k, SignableAttribute a name) :: R)
              ((k, SignableAttribute a' name) :: R')
| signed_node k D2 R2 R2' D R R' :
    signed_as Q D2 R2 R2' ->
    signed_as Q D R R' ->
    signed_as Q ((k, PDict D2) :: D) ((k, ProfileDict R2) :: R)
              ((k, ProfileDict R2') :: R').

(** ** The display level of a sign *)

(** The level the last of the [sign] calls with the arguments [levels]
    supplied, or else what [DISPLAY_LEVEL] held before them. *)
Definition last_supplied (levels : list (option string)) (before : option string)
  : option string :=
  fold_left (fun g level => match level with Some _ => level | None => g end)
            levels before.

(** The attribute [a'] that a turn of the sign walk leaves of [a], when the
    level [g] is the one to apply: [a] itself, where nothing was written;
    with the display level [a] had, where [a] has no [signature]; and else
    with a display level that is not [None]: the one [a] had or, where it
    had [None], the level [g]. *)
Definition levelled (g : option string) (a : dict) (v : value) (a' : dict)
  : Prop :=
  a' = a
  \/ (dict_has "signature" a = false /\ display_of a' = display_of a)
  \/ (exists level,
        display_of a' = Some level
        /\ is_None level = false
        /\ match display_of a with
           | Some PNone => option_map PStr g = Some level
           | other => other = Some level
           end).

(** The sample profile with an empty mapping put where the raw tree holds
    [None]. *)
Definition profile_blank : Profile :=
  with_flat sample_profile "pgp_public_keys" (PDict []).

(** The sample profile with a number and a list in its flat view, and the
    flat view read back after it was signed. *)
Definition profile_C : Profile :=
  with_flat (with_flat sample_profile "primary_email" (PInt 5))
            "pgp_public_keys" (PList [PStr "b"; PStr "a"; PStr "b"]).

Definition flat_C : dict :=
  [("schema", PStr "https://person-api.sso.mozilla.com/schema/v2/profile");
   ("active", PBool true);
   ("primary_email", PStr "5");
   ("pgp_public_keys", PDict [("a", PNone); ("b", PNone)]);
   ("access_information", PDict [("ldap", abc)])].

(** ** Induction on values *)

Section ValueInduction.

Variable P : value -> Prop.
Hypothesis HNone : P PNone.
Hypothesis HBool : forall b, P (PBool b).
Hypothesis HInt : forall z, P (PInt z).
Hypothesis HStr : forall s, P (PStr s).
Hypothesis HList : forall l, Forall P l -> P (PList l).
Hypothesis HDict : forall d, Forall (fun kv => P (snd kv)) d -> P (PDict d).
Hypothesis HAttr :
  forall d n, Forall (fun kv => P (snd kv)) d -> P (SignableAttribute d n).
Hypothesis HProfileDict :
  forall d, Forall (fun kv => P (snd kv)) d -> P (ProfileDict d).

Fixpoint value_nested_ind (v : value) : P v :=
  let entries :=
    fix entries (d : dict) : Forall (fun kv => P (snd kv)) d :=
      match d with
      | [] => Forall_nil _
      | kv :: t => Forall_cons kv (value_nested_ind (snd kv)) (entries t)
      end in
  match v with
  | PNone => HNone
  | PBool b => HBool b
  | PInt z => HInt z
  | PStr s => HStr s
  | PList l =>
      HList l ((fix members (l : list value) : Forall P l :=
                  match l with
                  | [] => Forall_nil _
                  | x :: t => Forall_cons x (value_nested_ind x) (members t)
                  end) l)
  | PDict d => HDict d (entries d)
  | SignableAttribute d n => HAttr d n (entries d)
  | ProfileDict d => HProfileDict d (entries d)
  end.

End ValueInduction.

(** ** The states a walk relates *)

(** Between two states: the globals and the environment are kept but for the
    clock, which only advances, and notifications are only added. *)
Definition steady (st st' : state) : Prop :=
  DISPLAY_LEVEL (fst st') = DISPLAY_LEVEL (fst st)
  /\ PUBLISHER_SIGNING_KEY (fst st') = PUBLISHER_SIGNING_KEY (fst st)
  /\ PUBLISHER_NAME (fst st') = PUBLISHER_NAME (fst st)
  /\ DRY_RUN (fst st') = DRY_RUN (fst st)
  /\ log (fst st') = log (fst st)
  /\ submitted (fst st') = submitted (fst st)
  /\ ticks (fst st) <= ticks (fst st')
  /\ exists more, snd st' = (snd st ++ more)%list.

(** The exceptions of a walk that starts in the state [st]: never the one
    of the constructor's gate, and not the one of the missing display level
    when the global level is set. *)
Definition mild (st : state) (r : option exn) : Prop :=
  r <> Some InactiveProfileException
  /\ (DISPLAY_LEVEL (fst st) <> None -> r <> Some no_display_level).

Definition tame {X : Type} (st : state) (res : X * state * option exn) : Prop :=
  steady st (snd (fst res)) /\ mild st (snd res).

(** A document of an inactive user. *)
Definition inactive_document : dict :=
  [("active", PDict (sample_leaf "value" (PBool false)));
   ("primary_email", PDict (sample_leaf "value" (PStr "gone@mozilla.com")))].

(** ** Documents of the Person API *)

(** The raw node [_walk] makes of the value [v] found at key [k] of a
    document: a dict with a [value] or [values] becomes the attribute of
    that name, any other dict a [ProfileDict] of its entries. *)
Fixpoint raw_of (k : string) (v : value) : value :=
  match v with
  | PDict d =>
      if has_value d then SignableAttribute d k
      else ProfileDict
             ((fix entries (d : dict) : dict :=
                 match d with
                 | [] => []
                 | (k', x) :: t => (k', raw_of k' x) :: entries t
                 end) d)
  | other => other
  end.

Definition raw_entries (d : dict) : dict :=
  map (fun kv => (fst kv, raw_of (fst kv) (snd kv))) d.

(** A document as the Person API sends it: unsigned strings, leaves with a
    [value] or [values], and nested mappings that have neither those nor a
    [metadata] or a [signature]; no key twice. *)
Inductive document : dict -> Prop :=
| document_nil : document []
| document_str k s D :
    ~ In k (keys D) -> document D -> document ((k, PStr s) :: D)
| document_leaf k leaf D :
    has_value leaf = true ->
    ~ In k (keys D) -> document D -> document ((k, PDict leaf) :: D)
| document_node k D2 D :
    has_value D2 = false ->
    is_None (get_or_None "metadata" D2)
    && is_None (get_or_None "signature" D2) = true ->
    document D2 -> ~ In k (keys D) -> document D ->
    document ((k, PDict D2) :: D).

(** * Properties *)

(** ** Dictionaries *)

Lemma dict_get_set_same (k : string) (v : value) (d : dict) :
  dict_get k (dict_set k v d) = Some v.
Proof.
  induction d as [|[k' v'] t IH]; simpl.
  - now rewrite String.eqb_refl.
  - destruct (String.eqb k k') eqn:E; simpl; rewrite E; auto.
Qed.

Lemma dict_get_set_other (k k' : string) (v : value) (d : dict) :
  k <> k' -> dict_get k' (dict_set k v d) = dict_get k' d.
Proof.
  intros N. induction d as [|[k0 v0] t IH]; simpl.
  - destruct (String.eqb_spec k' k); congruence.
  - destruct (String.eqb_spec k k0) as [->|]; simpl.
    + destruct (String.eqb_spec k' k0); congruence.
    + destruct (String.eqb_spec k' k0); auto.
Qed.

Lemma dict_get_del_other (k k' : string) (d : dict) :
  k <> k' -> dict_get k' (dict_del k d) = dict_get k' d.
Proof.
  intros N. induction d as [|[k0 v0] t IH]; simpl; auto.
  destruct (String.eqb_spec k k0) as [->|]; simpl.
  - destruct (String.eqb_spec k' k0); congruence.
  - destruct (String.eqb_spec k' k0); auto.
Qed.

Lemma dict_has_set_other (k k' : string) (v : value) (d : dict) :
  k <> k' -> dict_has k' (dict_set k v d) = dict_has k' d.
Proof. intros N. unfold dict_has. now rewrite dict_get_set_other. Qed.

Lemma dict_has_set_same (k : string) (v : value) (d : dict) :
  dict_has k (dict_set k v d) = true.
Proof. unfold dict_has. now rewrite dict_get_set_same. Qed.

Lemma dict_get_In (k : string) (v : value) (d : dict) :
  dict_get k d = Some v -> In (k, v) d.
Proof.
  induction d as [|[k' v'] t IH]; simpl; [discriminate|].
  destruct (String.eqb_spec k k') as [->|]; intros H.
  - injection H as ->. now left.
  - right. auto.
Qed.

Lemma dict_get_None_keys (k : string) (d : dict) :
  dict_get k d = None <-> ~ In k (keys d).
Proof.
  induction d as [|[k' v'] t IH]; simpl; [tauto|].
  destruct (String.eqb_spec k k') as [->|N].
  - split; [discriminate | intros H; exfalso; apply H; now left].
  - rewrite IH. split; intros H; [intros [E|I]; [congruence|tauto] | tauto].
Qed.

Lemma keys_dict_set_present (k : string) (v : value) (d : dict) :
  In k (keys d) -> keys (dict_set k v d) = keys d.
Proof.
  induction d as [|[k' v'] t IH]; simpl; [tauto|].
  destruct (String.eqb_spec k k') as [->|N]; simpl; auto.
  intros [E|I]; [congruence|]. f_equal. auto.
Qed.

Lemma keys_dict_set_absent (k : string) (v : value) (d : dict) :
  ~ In k (keys d) -> keys (dict_set k v d) = (keys d ++ [k])%list.
Proof.
  induction d as [|[k' v'] t IH]; simpl; auto.
  destruct (String.eqb_spec k k') as [->|N]; simpl.
  - intros H. exfalso. apply H. now left.
  - intros H. f_equal. apply IH. tauto.
Qed.

(** ** is_empty *)

Lemma without_hack_keys (ks : list string) :
  without_hack (map PStr ks)
  = inr (map PStr (filter (fun k => negb (prefix "HACK#" k)) ks)).
Proof.
  induction ks as [|k t IH]; simpl; auto.
  rewrite IH. now destruct (prefix "HACK#" k).
Qed.

Lemma any_app (xs ys : list value) : any (xs ++ ys) = any xs || any ys.
Proof. apply existsb_app. Qed.

Lemma fields_In (d : dict) (paths : list (string * option string)) :
  forall xs path x,
    fields d paths = inr xs -> In path paths -> field d path = inr x -> In x xs.
Proof.
  induction paths as [|q t IH]; simpl; intros xs path x F I E; [tauto|].
  destruct (field d q) as [e|y] eqn:Fq; [discriminate|].
  destruct (fields d t) as [e|ys] eqn:Ft; [discriminate|].
  injection F as <-. destruct I as [->|I].
  - left. congruence.
  - right. eauto.
Qed.

Lemma filter_hack_all (ks : list string) :
  forallb (prefix "HACK#") ks = true ->
  filter (fun k => negb (prefix "HACK#" k)) ks = [].
Proof.
  induction ks as [|k t IH]; simpl; auto.
  destruct (prefix "HACK#" k); simpl; [auto | discriminate].
Qed.

Lemma filter_hack_some (ks : list string) (k : string) :
  In k ks -> prefix "HACK#" k = false ->
  filter (fun k => negb (prefix "HACK#" k)) ks <> [].
Proof.
  intros I P E.
  assert (In k (filter (fun k => negb (prefix "HACK#" k)) ks)) as H
    by (apply filter_In; split; [auto | now rewrite P]).
  rewrite E in H. destruct H.
Qed.

(** C10: [is_empty] leaves out of [usernames] every key that starts with
    [HACK#].  With all the listed fields readable: a profile whose listed
    fields are all false and whose [usernames] mapping has only such keys is
    empty; a [usernames] key without the prefix makes it not empty; and any
    listed field with a true value makes it not empty. *)
Theorem is_empty_ignores_hack_usernames (p : Profile) (xs : list value) :
  fields (data p) listed_fields = inr xs ->
  (forall u, dict_get "usernames" (data p) = Some (PDict u) ->
             forallb (prefix "HACK#") (keys u) = true ->
             any xs = false ->
             is_empty p = inr true)
  /\ (forall u k, dict_get "usernames" (data p) = Some (PDict u) ->
                  In k (keys u) -> prefix "HACK#" k = false ->
                  is_empty p = inr false)
  /\ (forall path x us, In path listed_fields ->
                        field (data p) path = inr x -> truthy x = true ->
                        usernames_of (data p) = inr us ->
                        is_empty p = inr false).
Proof.
  intros F. repeat split.
  - intros u U H A. unfold is_empty, usernames_of. rewrite U. cbn [iterate].
    rewrite without_hack_keys, F, any_app, A, (filter_hack_all _ H).
    reflexivity.
  - intros u k U I P. unfold is_empty, usernames_of. rewrite U. cbn [iterate].
    rewrite without_hack_keys, F, any_app. simpl.
    pose proof (filter_hack_some _ _ I P) as N.
    destruct (filter _ (keys u)); [congruence|].
    simpl. now rewrite !orb_true_r.
  - intros path x us I E T U. unfold is_empty. rewrite U, F, any_app.
    assert (any xs = true) as ->
      by (apply existsb_exists; exists x; split; [eapply fields_In; eauto | auto]).
    reflexivity.
Qed.

(** The profile whose only entry is a [HACK#] username is empty. *)
Lemma is_empty_ignores_hack_usernames_witness :
  is_empty (blank_profile (PDict [("HACK#bugzilla", PStr "jdoe")])) = inr true.
Proof.
  refine (proj1 (is_empty_ignores_hack_usernames
                   (blank_profile (PDict [("HACK#bugzilla", PStr "jdoe")]))
                   (repeat PNone 34) _) _ _ _ _);
    reflexivity.
Defined.

(** ** Profile.__setitem__ *)

Lemma intact_called (p : Profile) :
  intact p = true ->
  dict_has "_walk" (attributes p) = false
  /\ dict_has "sign" (attributes p) = false
  /\ dict_has "json" (attributes p) = false
  /\ dict_has "publish" (attributes p) = false.
Proof.
  unfold intact. simpl.
  destruct (dict_has "_walk" _), (dict_has "sign" _), (dict_has "json" _),
    (dict_has "publish" _); simpl; intros H; try discriminate H; auto.
Qed.

Lemma rebinds_inv (k : string) :
  rebinds k = false ->
  k <> "_profile" /\ k <> "_walk" /\ k <> "sign" /\ k <> "json"
  /\ k <> "publish" /\ unfollowed k = false.
Proof.
  unfold rebinds, called. simpl. intros R.
  apply orb_false_iff in R as [R U]. apply orb_false_iff in R as [P C].
  repeat match type of C with
         | _ || _ = false => apply orb_false_iff in C as [? C]
         end.
  repeat split; auto; intros ->; discriminate.
Qed.

Lemma intact_set (p : Profile) (k : string) (v : value) :
  rebinds k = false ->
  intact p = true ->
  intact (mkProfile (data p) (_profile p) (_base_keys p) (__notifications p)
                    (dict_set k v (attributes p))) = true.
Proof.
  intros R I. apply rebinds_inv in R as (_ & N1 & N2 & N3 & N4 & _).
  unfold intact in *. simpl in *.
  now rewrite !dict_has_set_other by auto.
Qed.

Lemma setattr_plain (p : Profile) (k : string) (v : value) :
  descriptor k = false -> rebinds k = false ->
  Profile_setattr p k v
  = (mkProfile (data p) (_profile p) (_base_keys p) (__notifications p)
               (dict_set k v (attributes p)), None).
Proof.
  intros D R. apply rebinds_inv in R as (P & _ & _ & _ & _ & U).
  unfold Profile_setattr. rewrite U.
  unfold descriptor in D. simpl in D.
  destruct (String.eqb k "__class__"); [discriminate|].
  destruct (String.eqb k "__dict__"); [discriminate|].
  destruct (String.eqb k "__weakref__"); [discriminate|].
  destruct (String.eqb_spec k "_profile"); [contradiction|]. reflexivity.
Qed.

(** [setattr] raises for a name with a descriptor, [__dict__] given a
    [dict] apart, and is not followed for the names of [unfollowed]; for
    every other name it raises nothing. *)
Lemma setattr_returns (p : Profile) (k : string) (v : value) :
  descriptor k || unfollowed k = false -> snd (Profile_setattr p k v) = None.
Proof.
  intros N. apply orb_false_iff in N as [D U].
  unfold Profile_setattr. rewrite U.
  unfold descriptor in D. simpl in D.
  destruct (String.eqb k "__class__"); [discriminate|].
  destruct (String.eqb k "__dict__"); [discriminate|].
  destruct (String.eqb k "__weakref__"); [discriminate|].
  now destruct (String.eqb k "_profile").
Qed.

Lemma setattr_special (p : Profile) (k : string) (v : value) :
  descriptor k || unfollowed k = true -> snd (Profile_setattr p k v) <> None.
Proof.
  unfold Profile_setattr, descriptor. simpl existsb.
  destruct (String.eqb k "__class__"); [discriminate|].
  destruct (String.eqb k "__dict__"); [now destruct v|].
  destruct (String.eqb k "__weakref__"); [discriminate|].
  simpl. intros ->. discriminate.
Qed.

Lemma setattr_mild (p : Profile) (k : string) (v : value) :
  snd (Profile_setattr p k v) <> Some InactiveProfileException.
Proof.
  unfold Profile_setattr.
  destruct (String.eqb k "__class__"); [discriminate|].
  destruct (String.eqb k "__dict__"); [now destruct v|].
  destruct (String.eqb k "__weakref__"); [discriminate|].
  destruct (unfollowed k); [discriminate|].
  destruct (String.eqb k "_profile"); discriminate.
Qed.

Lemma getattr_plain (inherited : string -> bool) (p : Profile) (k : string) :
  descriptor k = false -> rebinds k = false ->
  Profile_getattr inherited p k
  = match dict_get k (attributes p) with
    | Some v => inr (Item v)
    | None =>
        if existsb (String.eqb k) defined_by_Profile || inherited k
        then inr (OfClass k)
        else inl AttributeError
    end.
Proof.
  intros D R. apply rebinds_inv in R as (P & _ & _ & _ & _ & U).
  unfold Profile_getattr.
  unfold descriptor in D. unfold unfollowed in U. simpl in D, U.
  destruct (String.eqb k "__class__"); [discriminate|].
  destruct (String.eqb k "__dict__"); [discriminate|].
  destruct (String.eqb k "__weakref__"); [discriminate|].
  destruct (String.eqb k "data"); [discriminate|].
  destruct (String.eqb_spec k "_profile"); [contradiction|].
  destruct (String.eqb k "_base_keys"); [discriminate|].
  destruct (String.eqb k "_Profile__notifications"); [discriminate|].
  reflexivity.
Qed.

(** [sign] and [publish] where no method is hidden. *)
Lemma sign_intact_eq jws_sign gmtime_stamp (p : Profile) level w :
  intact p = true ->
  sign jws_sign gmtime_stamp p level w
  = let w := match level with
             | Some l => set_DISPLAY_LEVEL (Some l) w
             | None => w
             end in
    let '(raw, st, r) :=
      _walk jws_sign gmtime_stamp (PDict (data p)) (_profile p)
            (w, __notifications p) in
    (mkProfile (data p) raw (_base_keys p) (snd st) (attributes p), fst st, r).
Proof.
  intros I. apply intact_called in I as (W & S & _). unfold sign.
  now rewrite S, W.
Qed.

(** A profile that the constructor returns is [intact], and [sign] keeps it
    so. *)
Lemma init_intact jws_sign gmtime_stamp doc allow_inactive w w' p :
  Profile_init jws_sign gmtime_stamp doc allow_inactive w = (w', inr p) ->
  intact p = true.
Proof.
  unfold Profile_init.
  destruct (_walk _ _ _ _ _) as [[raw st] [e|]]; [discriminate|].
  destruct (_walk _ _ _ _ _) as [[flat st'] [e|]]; [discriminate|].
  destruct allow_inactive; simpl.
  - now intros [= _ <-].
  - destruct (dict_get "active" (dict_of flat)) as [[|[|]| | | | | |]|];
      try discriminate; now intros [= _ <-].
Qed.

Lemma sign_intact jws_sign gmtime_stamp (p : Profile) level w :
  intact (fst (fst (sign jws_sign gmtime_stamp p level w))) = intact p.
Proof.
  unfold sign. destruct (dict_has "sign" _); [reflexivity|].
  destruct (dict_has "_walk" _); [reflexivity|].
  now destruct (_walk _ _ _ _ _) as [[raw st] r].
Qed.

(** A method hidden by [__setitem__]: the [sign] that follows raises
    [TypeError] and leaves the raw tree as it is. *)
Lemma hidden_walk_breaks_sign jws_sign gmtime_stamp (p : Profile) v level w :
  existsb (String.eqb "_walk") (_base_keys p) = false ->
  intact p = true ->
  snd (Profile_setitem p "_walk" v) = None
  /\ snd (sign jws_sign gmtime_stamp (fst (Profile_setitem p "_walk" v)) level w)
     = Some TypeError
  /\ _profile (fst (fst (sign jws_sign gmtime_stamp
                              (fst (Profile_setitem p "_walk" v)) level w)))
     = _profile p.
Proof.
  intros B I. apply intact_called in I as (_ & S & _).
  unfold Profile_setitem. rewrite B. cbn [Profile_setattr String.eqb Ascii.eqb
    Bool.eqb unfollowed existsb orb fst snd].
  unfold sign. cbn [attributes].
  rewrite dict_has_set_other, S by discriminate.
  rewrite dict_has_set_same. auto.
Qed.

(** C8, as the code has it: setting a key that is not among the keys of
    the retrieved document, and is neither a name with a descriptor
    ([__class__], [__dict__], [__weakref__]) nor one of the names the
    methods read through [self], raises nothing.  The value becomes an entry
    of the dictionary of the instance and nothing else changes; no method is
    hidden by it; where the flat view has no such key [__getitem__] finds
    the value; and a later [sign] does what it does without the
    assignment. *)
Theorem setitem_unknown_key_sets_attribute
    (jws_sign : dict -> value -> string) (gmtime_stamp : nat -> string)
    (inherited : string -> bool)
    (p : Profile) (k : string) (v : value) :
  intact p = true ->
  existsb (String.eqb k) (_base_keys p) = false ->
  descriptor k = false ->
  rebinds k = false ->
  Profile_setitem p k v
  = (mkProfile (data p) (_profile p) (_base_keys p) (__notifications p)
               (dict_set k v (attributes p)), None)
  /\ intact (fst (Profile_setitem p k v)) = true
  /\ (dict_get k (data p) = None ->
      Profile_getitem inherited (fst (Profile_setitem p k v)) k = inr (Item v))
  /\ forall level w,
       let '(p1, w1, r) := sign jws_sign gmtime_stamp p level w in
       sign jws_sign gmtime_stamp (fst (Profile_setitem p k v)) level w
       = (mkProfile (data p1) (_profile p1) (_base_keys p1) (__notifications p1)
                    (dict_set k v (attributes p1)), w1, r).
Proof.
  intros I B D R. unfold Profile_setitem. rewrite B, (setattr_plain _ _ _ D R).
  pose proof (intact_set p k v R I) as I'.
  cbn [fst snd]. repeat split.
  - exact I'.
  - intros G. unfold Profile_getitem. cbn [data]. rewrite G.
    rewrite (getattr_plain _ _ _ D R). cbn [attributes].
    now rewrite dict_get_set_same.
  - intros level w. rewrite (sign_intact_eq _ _ _ _ _ I), (sign_intact_eq _ _ _ _ _ I').
    cbv zeta. cbn [data _profile __notifications].
    destruct (_walk _ _ _ _ _) as [[raw st] r]. reflexivity.
Qed.

Lemma setitem_unknown_key_sets_attribute_witness :
  Profile_getitem (fun _ => false)
    (fst (Profile_setitem sample_profile "nickname" (PStr "Jay"))) "nickname"
  = inr (Item (PStr "Jay")).
Proof.
  refine (proj1 (proj2 (proj2
            (setitem_unknown_key_sets_attribute sample_jws sample_clock
               (fun _ => false) sample_profile "nickname" (PStr "Jay")
               _ _ _ _))) _);
    reflexivity.
Defined.

(** [nickname] is no key of the sample document, and setting it returns
    without an exception; the value is read back under that key. *)
Lemma setitem_unknown_key_no_error :
  existsb (String.eqb "nickname") (_base_keys sample_profile) = false
  /\ snd (Profile_setitem sample_profile "nickname" (PStr "Jay")) = None
  /\ forall inherited,
       Profile_getitem inherited
         (fst (Profile_setitem sample_profile "nickname" (PStr "Jay")))
         "nickname" = inr (Item (PStr "Jay")).
Proof. repeat split; reflexivity. Qed.


(** ** What a walk leaves alone *)

Lemma steady_refl (st : state) : steady st st.
Proof.
  unfold steady. repeat split; auto. exists []. now rewrite app_nil_r.
Qed.

Lemma steady_trans (a b c : state) : steady a b -> steady b c -> steady a c.
Proof.
  unfold steady.
  intros (A1 & A2 & A3 & A4 & A5 & A6 & A7 & m1 & A8)
         (B1 & B2 & B3 & B4 & B5 & B6 & B7 & m2 & B8).
  repeat split; try congruence; try lia.
  exists (m1 ++ m2)%list. rewrite B8, A8. now rewrite app_assoc.
Qed.

Lemma tame_here {X : Type} (x : X) (st : state) (r : option exn) :
  mild st r -> tame st (x, st, r).
Proof. intros M. split; [apply steady_refl | exact M]. Qed.

Lemma mild_steady (st st' : state) (r : option exn) :
  steady st st' -> mild st' r -> mild st r.
Proof.
  intros (S & _) [M1 M2]. split; [exact M1|]. intros G. apply M2. now rewrite S.
Qed.

Create HintDb walk.
#[local] Hint Resolve steady_refl tame_here : walk.
#[local] Hint Extern 1 (mild _ _) =>
  (unfold mild, no_display_level, overwrite_error, invalid_attribute;
   split; [congruence | intros _; simpl; discriminate]) : walk.

Section WalkInvariants.

Variable jws_sign : dict -> value -> string.
Variable gmtime_stamp : nat -> string.

#[local] Abbreviation setattr := (SignableAttribute_setattr jws_sign gmtime_stamp).
#[local] Abbreviation walk_item' := (walk_item jws_sign gmtime_stamp).

Lemma resolve_display_raises w display m e :
  resolve_display w display m = inl e ->
  e = no_display_level /\ display = PNone /\ DISPLAY_LEVEL w = None.
Proof.
  unfold resolve_display.
  destruct display; simpl; try discriminate.
  destruct (DISPLAY_LEVEL w); [discriminate|]. intros [= <-]. auto.
Qed.

Lemma listify_raises l e : listify l = inl e -> e = TypeError \/ e = Unsupported.
Proof.
  unfold listify. destruct (strings_of l); [discriminate|].
  destruct (numbers_only l); [intros [= <-]; auto|].
  destruct l as [|[| | | | | | |] [|y t]]; intros [= <-]; auto.
Qed.

Lemma listify_returns l v :
  listify l = inr v ->
  exists ss, strings_of l = Some ss
             /\ v = PDict (to_None (sorted ss) []).
Proof.
  unfold listify. destruct (strings_of l) as [ss|].
  - intros [= <-]. eauto.
  - destruct (numbers_only l); [discriminate|].
    destruct l as [|[| | | | | | |] [|y t]]; discriminate.
Qed.

Lemma normalize_raises v e :
  normalize v = inl e -> e = TypeError \/ e = Unsupported.
Proof.
  unfold normalize.
  destruct v as [| | | |[|x l]| | |]; try discriminate.
  destruct (listify (x :: l)) as [e'|w] eqn:L.
  - intros [= <-]. eapply listify_raises; eauto.
  - now destruct w.
Qed.

Lemma stamp_and_sign_tame data name initial v st :
  tame st (stamp_and_sign jws_sign gmtime_stamp data name initial v st).
Proof.
  assert (steady st (tick (fst st), snd st)) as T.
  { unfold steady; simpl. repeat split; auto. exists []. now rewrite app_nil_r. }
  assert (forall n, steady st (tick (fst st), (snd st ++ [n])%list)) as T'.
  { intros n. unfold steady; simpl. repeat split; auto. now exists [n]. }
  unfold stamp_and_sign, tame.
  repeat match goal with
         | |- context [match ?x with _ => _ end] => destruct x eqn:?; simpl
         end;
    split; auto with walk.
  match goal with
  | H : resolve_display _ _ _ = inl _ |- _ =>
      apply resolve_display_raises in H as (-> & _ & G)
  end.
  split; [discriminate|]. intros N. now destruct N.
Qed.

Lemma setattr_tame data name v st : tame st (setattr data name v st).
Proof.
  unfold SignableAttribute_setattr.
  destruct (normalize v) as [e|v'] eqn:N;
    [apply normalize_raises in N as [-> | ->]; auto with walk|].
  cbv zeta.
  match goal with |- context [dict_get ?k data] => destruct (dict_get k data) end;
    [|auto with walk].
  match goal with |- context [if ?c then _ else _] => destruct c end;
    [auto with walk|].
  match goal with |- context [if ?c then _ else _] => destruct c end;
    [auto with walk|].
  apply stamp_and_sign_tame.
Qed.

Lemma ProfileDict_setitem_tame d k v st :
  tame st (ProfileDict_setitem jws_sign gmtime_stamp d k v st).
Proof.
  unfold ProfileDict_setitem, overwrite_error.
  destruct (dict_get k d) as [[| | | | | |a name|]|]; auto with walk.
  pose proof (setattr_tame a name v st) as H.
  destruct (setattr a name v st) as [[a' st'] r]. exact H.
Qed.

Lemma node_setitem_tame out k v st :
  tame st (node_setitem jws_sign gmtime_stamp out k v st).
Proof.
  destruct out as [| | | | |d|d n|d]; simpl; auto with walk.
  pose proof (ProfileDict_setitem_tame d k v st) as H.
  destruct (ProfileDict_setitem _ _ d k v st) as [[d' st'] r]. exact H.
Qed.

Lemma for_items_tame (step : walker) (items : dict) :
  Forall (fun kv => forall k out st, tame st (step k (snd kv) out st)) items ->
  forall out st, tame st (for_items step items out st).
Proof.
  induction 1 as [|[k v] t H _ IH]; intros out st; simpl; [auto with walk|].
  specialize (H k out st). simpl in H.
  destruct (step k v out st) as [[out' st'] [e|]]; [exact H|].
  destruct H as [S _]. specialize (IH out' st'). destruct IH as [S' M].
  split; [eapply steady_trans; eauto | eapply mild_steady; eauto].
Qed.

Lemma node_getitem_mild st out k e :
  node_getitem out k = inl e -> mild st (Some e).
Proof.
  unfold node_getitem. destruct (as_mapping out) as [d|]; [|intros [= <-]; auto with walk].
  destruct (dict_get k d); intros [= <-]; auto with walk.
Qed.

Lemma node_get_mild st out k e : node_get out k = inl e -> mild st (Some e).
Proof.
  unfold node_get. destruct (as_mapping out); intros [= <-]; auto with walk.
Qed.

Lemma contains_mild st k d e :
  SignableAttribute_contains k d = inl e -> mild st (Some e).
Proof.
  unfold SignableAttribute_contains. destruct (_ && _); intros [= <-].
  auto with walk.
Qed.

Lemma node_contains_mild st out k e :
  node_contains out k = inl e -> mild st (Some e).
Proof.
  destruct out; simpl; try (intros [= <-]; auto with walk).
  apply contains_mild.
Qed.

#[local] Hint Resolve node_getitem_mild node_get_mild contains_mild
  node_contains_mild : walk.

Lemma descend_tame body out k st :
  (forall child st, tame st (body child st)) -> tame st (descend body out k st).
Proof.
  intros H. unfold descend.
  destruct (node_getitem out k) as [e|child] eqn:G; [eauto with walk|].
  specialize (H child st). destruct (body child st) as [[c st'] r]. exact H.
Qed.

Lemma tame_after {X : Type} st st' (res : X * state * option exn) :
  steady st st' -> tame st' res -> tame st res.
Proof.
  intros S [S' M]. split; [eapply steady_trans; eauto | eapply mild_steady; eauto].
Qed.

Lemma write_branch_tame a name v out k st :
  tame st (if negb (py_eq (SignableAttribute_value a) v) then
             let '(a', st', r) := setattr a name v st in
             (node_replace out k (SignableAttribute a' name), st', r)
           else (out, st, None)).
Proof.
  destruct (negb _); [|auto with walk].
  pose proof (setattr_tame a name v st) as H.
  destruct (setattr a name v st) as [[a' st'] r]. exact H.
Qed.

Lemma walk_item_tame v : forall k out st, tame st (walk_item' k v out st).
Proof.
  induction v as [| | |s|l _|d IH|d n _|d IH] using value_nested_ind;
    intros k out st; simpl;
    try apply node_setitem_tame;
    (destruct (node_get out k) as [e|g] eqn:G; [eauto with walk|]);
    destruct g; try apply write_branch_tame; auto with walk.
  all: try (destruct (SignableAttribute_contains "value" d) eqn:C;
            [eauto with walk | apply node_setitem_tame]).
  all: try (destruct (dict_has "value" d || dict_has "values" d);
            [apply node_setitem_tame|];
            destruct (is_None (get_or_None "metadata" d)
                      && is_None (get_or_None "signature" d));
            [|auto with walk];
            destruct (node_contains out k) as [e|[|]] eqn:C;
            [eauto with walk| |]).
  all: try match goal with
           | |- tame ?st (let (_, _) := node_setitem ?j ?g ?o ?k ?v ?st in _) =>
               let H := fresh "H" in
               pose proof (node_setitem_tame o k v st) as H;
               destruct (node_setitem j g o k v st) as [[out' st'] [e|]];
               [exact H | destruct H as [H _]; apply (tame_after _ _ _ H)]
           end.
  all: apply descend_tame; intros; apply for_items_tame;
    eapply Forall_impl; [|exact IH]; auto.
Qed.

(** [_walk] keeps the globals and the environment, and does not raise
    [InactiveProfileException]. *)
Lemma walk_tame input out st :
  tame st (_walk jws_sign gmtime_stamp input out st).
Proof.
  unfold _walk. destruct (as_mapping input) as [items|]; [|auto with walk].
  apply for_items_tame. apply Forall_forall. intros kv _ k out' st'.
  apply walk_item_tame.
Qed.

End WalkInvariants.

(** ** A turn of a walk at an empty slot *)

Lemma dict_set_twice (k : string) (x y : value) (d : dict) :
  dict_set k y (dict_set k x d) = dict_set k y d.
Proof.
  induction d as [|[k' v'] t IH]; simpl.
  - now rewrite String.eqb_refl.
  - destruct (String.eqb k k') eqn:E; simpl; rewrite E; congruence.
Qed.

Section EmptySlot.

Variable jws_sign : dict -> value -> string.
Variable gmtime_stamp : nat -> string.

#[local] Abbreviation setattr := (SignableAttribute_setattr jws_sign gmtime_stamp).
#[local] Abbreviation walk_item' := (walk_item jws_sign gmtime_stamp).

(** A leaf of the retrieved document enters an empty slot of the raw tree
    as a [SignableAttribute]. *)
Lemma walk_item_new_leaf k leaf d st :
  dict_get k d = None ->
  dict_has "value" leaf || dict_has "values" leaf = true ->
  walk_item' k (PDict leaf) (ProfileDict d) st
  = (ProfileDict (dict_set k (SignableAttribute leaf k) d), st, None).
Proof.
  intros G H. simpl. unfold node_get, get_or_None. simpl. rewrite G, H.
  simpl. unfold ProfileDict_setitem. now rewrite G.
Qed.

(** An attribute of the raw tree enters an empty slot of the flat view as
    its value. *)
Lemma walk_item_read_leaf k a name f st :
  dict_get k f = None ->
  dict_has "value" a || dict_has "values" a = true ->
  walk_item' k (SignableAttribute a name) (PDict f) st
  = (PDict (dict_set k (SignableAttribute_value a) f), st, None).
Proof.
  intros G H. simpl. unfold node_get, get_or_None. simpl. rewrite G.
  unfold SignableAttribute_contains. simpl. now rewrite H.
Qed.

End EmptySlot.

(** ** publish *)

Lemma leb_refl (s : string) : String.leb s s = true.
Proof. now destruct (String.leb_total s s). Qed.

Lemma pair_leb_total (a b : string * string) :
  pair_leb a b = false -> pair_leb b a = true.
Proof.
  unfold pair_leb. rewrite (String.eqb_sym (fst b) (fst a)).
  destruct (String.eqb (fst a) (fst b)); intros H.
  - destruct (String.leb_total (snd a) (snd b)); congruence.
  - destruct (String.leb_total (fst a) (fst b)); congruence.
Qed.

Lemma pair_leb_by_key (a b : string * string) : pair_leb a b = true -> by_key a b.
Proof.
  unfold pair_leb, by_key. destruct (String.eqb_spec (fst a) (fst b)) as [->|]; auto.
  intros _. apply leb_refl.
Qed.

Lemma insert_pair_HdRel (R : string * string -> string * string -> Prop) a x l :
  R a x -> HdRel R a l -> HdRel R a (insert_pair x l).
Proof.
  intros Rx H. destruct l as [|y t]; simpl; [now constructor|].
  destruct (pair_leb x y); constructor; auto. now inversion H.
Qed.

Lemma insert_pair_sorted x l :
  Sorted (fun a b => pair_leb a b = true) l ->
  Sorted (fun a b => pair_leb a b = true) (insert_pair x l).
Proof.
  induction 1 as [|y t S IH H]; simpl; [repeat constructor|].
  destruct (pair_leb x y) eqn:E.
  - constructor; [constructor; auto | now constructor].
  - constructor; auto. apply insert_pair_HdRel; auto using pair_leb_total.
Qed.

Lemma sorted_pairs_sorted l :
  Sorted (fun a b => pair_leb a b = true) (sorted_pairs l).
Proof. induction l; simpl; auto using insert_pair_sorted. Qed.

Lemma Sorted_weaken {A : Type} (R S : A -> A -> Prop) (l : list A) :
  (forall a b, R a b -> S a b) -> Sorted R l -> Sorted S l.
Proof.
  intros W. induction 1 as [|x t _ IH H]; constructor; auto.
  destruct H; constructor; auto.
Qed.

Lemma sorted_pairs_by_key l : Sorted by_key (sorted_pairs l).
Proof.
  eapply Sorted_weaken; [|apply sorted_pairs_sorted]. apply pair_leb_by_key.
Qed.

Lemma insert_pair_perm x l : Permutation (x :: l) (insert_pair x l).
Proof.
  induction l as [|y t IH]; simpl; auto.
  destruct (pair_leb x y); auto.
  eapply perm_trans; [apply perm_swap|]. now constructor.
Qed.

Lemma sorted_pairs_perm l : Permutation l (sorted_pairs l).
Proof.
  induction l as [|x t IH]; simpl; auto.
  eapply perm_trans; [|apply insert_pair_perm]. now constructor.
Qed.

Lemma log_updates_spec email notes w :
  log_updates email notes w
  = mkWorld (DISPLAY_LEVEL w) (PUBLISHER_SIGNING_KEY w) (PUBLISHER_NAME w)
            (DRY_RUN w) (ticks w)
            (log w ++ map (update_line email) notes) (submitted w).
Proof.
  unfold log_updates. revert w.
  induction notes as [|n t IH]; intros w; simpl.
  - rewrite app_nil_r. now destruct w.
  - rewrite IH. unfold add_log. simpl. now rewrite <- app_assoc.
Qed.

Section Publish.

Variable jws_sign : dict -> value -> string.
Variable gmtime_stamp : nat -> string.
Variable api : people.
Variable respond : list value -> request -> option value.

#[local] Abbreviation publish' := (publish jws_sign gmtime_stamp api respond).

Lemma getitem_raises out k e :
  node_getitem out k = inl e -> e = TypeError \/ e = KeyError k.
Proof.
  unfold node_getitem. destruct (as_mapping out) as [d|]; [|intros [= <-]; auto].
  destruct (dict_get k d); intros [= <-]; auto.
Qed.

(** What [change_profile] raises before it posts anything. *)
Lemma required_entries_raises profile e :
  required_entries profile = inl e ->
  e = TypeError \/ (exists k, e = KeyError k) \/ e = missing_required.
Proof.
  unfold required_entries.
  repeat match goal with
         | |- context [node_getitem ?o ?k] =>
             let G := fresh "G" in
             destruct (node_getitem o k) eqn:G;
             [apply getitem_raises in G as [-> | ->]; intros [= <-]; eauto|]
         end.
  destruct (py_in _ _); intros [= <-]; auto.
Qed.

Lemma change_profile_mild profile w :
  snd (change_profile api respond profile w) <> inl InactiveProfileException.
Proof.
  unfold change_profile.
  destruct (required_entries profile) as [e|user_id] eqn:R.
  - apply required_entries_raises in R as [-> | [[k ->] | ->]]; discriminate.
  - destruct (respond _ _) as [answer|]; [|discriminate].
    destruct (as_mapping (to_plain answer)); discriminate.
Qed.

(** C3, as the code has it, for a profile none of whose methods is hidden:
    [publish] calls [sign] first and hands on an exception of it.
    Otherwise the notifications are put in the order of their attribute
    keys (ties by message).  Without a [primary_email] in the flat view
    [publish] raises [KeyError] and logs nothing.  With one, it logs a line
    for each notification; whenever it returns, it returns [None]; when
    there is no notification, [dry_run] is true or the environment has
    [DRY_RUN], it posts nothing and returns, with the line of the skipped
    publication when there is no notification; and otherwise it calls
    [change_profile] with the JSON of the raw tree, which raises
    [TypeError], [KeyError] or the [ValueError] of the missing entries and
    posts nothing when the tree lacks a [user_id] value, a [primary_email]
    or a [primary_username] that is not [None], and posts the tree when it
    has them: [publish] then raises what the request raises,
    [AttributeError] when the answer is no mapping, or logs the line of the
    answer and returns [None]. *)
Theorem publish_logs_and_submits
    (p : Profile) (level : option string) (dry_run : bool) (w : world) :
  intact p = true ->
  match sign jws_sign gmtime_stamp p level w with
  | (p1, w1, Some e) => publish' p level dry_run w = (p1, w1, inl e)
  | (p1, w1, None) =>
      let notes := __notifications p1 in
      let submits :=
        has_notes notes && negb dry_run
        && match DRY_RUN w1 with None => true | Some _ => false end in
      Sorted by_key (sorted_pairs notes)
      /\ Sorted (fun a b => pair_leb a b = true) (sorted_pairs notes)
      /\ Permutation notes (sorted_pairs notes)
      /\ (dict_get "primary_email" (data p1) = None ->
          publish' p level dry_run w = (p1, w1, inl (KeyError "primary_email")))
      /\ forall email,
          dict_get "primary_email" (data p1) = Some email ->
          let lines := map (update_line (str email)) (sorted_pairs notes) in
          let '(p2, w2, r) := publish' p level dry_run w in
          p2 = p1
          /\ (forall x, r = inr x -> x = PNone)
          /\ (submits = false ->
              r = inr PNone
              /\ log w2
                 = (log w1 ++ lines
                    ++ (if has_notes notes then []
                        else [skip_line (str email)]))%list
              /\ submitted w2 = submitted w1)
          /\ (submits = true ->
              match required_entries (Profile_json p1) with
              | inl e =>
                  r = inl e
                  /\ (e = TypeError \/ (exists k, e = KeyError k)
                      \/ e = missing_required)
                  /\ log w2 = (log w1 ++ lines)%list
                  /\ submitted w2 = submitted w1
              | inr user_id =>
                  submitted w2 = (submitted w1 ++ [Profile_json p1])%list
                  /\ match respond (submitted w1)
                                   (change_request api user_id (Profile_json p1))
                     with
                     | None =>
                         r = inl RequestException
                         /\ log w2 = (log w1 ++ lines)%list
                     | Some answer =>
                         match as_mapping (to_plain answer) with
                         | None =>
                             r = inl AttributeError
                             /\ log w2 = (log w1 ++ lines)%list
                         | Some a =>
                             r = inr PNone
                             /\ log w2
                                = (log w1 ++ lines ++ [answer_line user_id a])%list
                         end
                     end
              end)
  end.
Proof.
  intros I. unfold publish.
  rewrite (proj2 (proj2 (proj2 (intact_called _ I)))).
  pose proof (sign_intact jws_sign gmtime_stamp p level w) as I1.
  destruct (sign jws_sign gmtime_stamp p level w) as [[p1 w1] [e|]]; auto.
  simpl in I1. rewrite I in I1. apply intact_called in I1 as (_ & _ & J & _).
  rewrite J. cbv zeta.
  split; [apply sorted_pairs_by_key|]. split; [apply sorted_pairs_sorted|].
  split; [apply sorted_pairs_perm|].
  split.
  - intros E. rewrite E. now destruct (__notifications p1).
  - intros email E. rewrite E. rewrite log_updates_spec.
    destruct (__notifications p1) as [|n t] eqn:N.
    + simpl. rewrite app_nil_r.
      repeat split; try discriminate; congruence.
    + set (notes := n :: t).
      change (match notes with [] => false | _ :: _ => true end) with true.
      change (has_notes notes) with true. cbn [andb].
      assert (forall X (a b : X),
                 match notes with [] => a | _ :: _ => b end = b) as M
        by reflexivity.
      destruct dry_run; [simpl; rewrite app_nil_r;
                         repeat split; try discriminate; congruence|].
      cbn [negb andb DRY_RUN].
      destruct (DRY_RUN w1); [simpl; rewrite app_nil_r;
                              repeat split; try discriminate; congruence|].
      unfold change_profile. cbn [submitted].
      destruct (required_entries (Profile_json p1)) as [e|user_id] eqn:Rq.
      { apply required_entries_raises in Rq.
        repeat split; try discriminate; auto. }
      destruct (respond _ _) as [answer|].
      2: { repeat split; try discriminate; auto. }
      destruct (as_mapping (to_plain answer)) as [a|].
      2: { repeat split; try discriminate; auto. }
      simpl. repeat split; try discriminate; try congruence.
      rewrite <- app_assoc. now destruct (answer_line user_id a).
Qed.

End Publish.

Lemma publish_logs_and_submits_witness :
  submitted (snd (fst (publish sample_jws sample_clock sample_api sample_respond
                               person_A (Some "staff") false fresh_world)))
  = [Profile_json (fst (fst (sign sample_jws sample_clock person_A (Some "staff")
                                  fresh_world)))]
  /\ snd (publish sample_jws sample_clock sample_api sample_respond
                  person_A (Some "staff") false fresh_world) = inr PNone.
Proof.
  pose proof (publish_logs_and_submits sample_jws sample_clock sample_api
                sample_respond person_A (Some "staff") false fresh_world
                eq_refl) as H.
  destruct (sign sample_jws sample_clock person_A (Some "staff") fresh_world)
    as [[p1 w1] [e|]] eqn:S; vm_compute in S; [discriminate S|].
  injection S as <- <-.
  destruct H as (_ & _ & _ & _ & H).
  specialize (H (PStr "jdoe@mozilla.org") eq_refl). cbv zeta in H.
  destruct (publish sample_jws sample_clock sample_api sample_respond
                    person_A (Some "staff") false fresh_world)
    as [[p2 w2] r] eqn:P.
  vm_compute in P. injection P as <- <- <-.
  destruct H as (_ & _ & _ & H). specialize (H eq_refl).
  vm_compute in H. destruct H as (S & R & _).
  split; vm_compute; [exact S | exact R].
Defined.

(** A profile with a change to publish and one without: [publish] returns
    [None] for both.  And where the raw tree has no [user_id], [publish]
    does not return and nothing is posted, with a notification to publish
    and no dry run. *)
Lemma publish_returns_None_with_and_without_change :
  let changed := publish sample_jws sample_clock sample_api sample_respond
                         person_A (Some "staff") false fresh_world in
  let unchanged := publish sample_jws sample_clock sample_api sample_respond
                           person_profile (Some "staff") false fresh_world in
  let stopped := publish sample_jws sample_clock sample_api sample_respond
                         profile_A (Some "staff") false fresh_world in
  snd changed = inr PNone
  /\ snd unchanged = inr PNone
  /\ __notifications (fst (fst changed))
     = [("primary_email", "jdoe@mozilla.com --> jdoe@mozilla.org")]
  /\ __notifications (fst (fst unchanged)) = []
  /\ List.length (submitted (snd (fst changed))) = 1
  /\ submitted (snd (fst unchanged)) = []
  /\ snd stopped = inl (KeyError "user_id")
  /\ __notifications (fst (fst stopped))
     = [("primary_email", "jdoe@mozilla.com --> jdoe@mozilla.org")]
  /\ submitted (snd (fst stopped)) = [].
Proof. vm_compute. repeat split; reflexivity. Qed.

(** ** The description of a change *)

Lemma insert_str_HdRel a x l :
  alphabetical a x -> HdRel alphabetical a l -> HdRel alphabetical a (insert_str x l).
Proof.
  intros Rx H. destruct l as [|y t]; simpl; [now constructor|].
  destruct (String.leb x y); constructor; auto. now inversion H.
Qed.

Lemma insert_str_sorted x l :
  Sorted alphabetical l -> Sorted alphabetical (insert_str x l).
Proof.
  induction 1 as [|y t S IH H]; simpl; [repeat constructor|].
  destruct (String.leb x y) eqn:E.
  - constructor; [constructor; auto | now constructor].
  - constructor; auto. apply insert_str_HdRel; auto.
    unfold alphabetical. destruct (String.leb_total x y); congruence.
Qed.

Lemma sorted_Sorted l : Sorted alphabetical (sorted l).
Proof. induction l; simpl; auto using insert_str_sorted. Qed.

Lemma insert_str_In x y l : In y (insert_str x l) <-> y = x \/ In y l.
Proof.
  induction l as [|z t IH]; simpl; [intuition|].
  destruct (String.leb x z); simpl; [intuition|].
  rewrite IH. intuition.
Qed.

Lemma sorted_In y l : In y (sorted l) <-> In y l.
Proof.
  induction l as [|x t IH]; simpl; [tauto|].
  rewrite insert_str_In, IH. intuition.
Qed.

Lemma difference_In x a b : In x (difference a b) <-> In x a /\ ~ In x b.
Proof.
  unfold difference. rewrite filter_In, negb_true_iff.
  split; intros [I N]; split; auto.
  - intros J. assert (existsb (String.eqb x) b = true) as E
      by (apply existsb_exists; exists x; split; [auto | apply String.eqb_refl]).
    congruence.
  - destruct (existsb (String.eqb x) b) eqn:E; auto.
    apply existsb_exists in E as (y & J & E). apply String.eqb_eq in E.
    subst. contradiction.
Qed.

Lemma join_cons sep x y l : join sep (x :: y :: l) = x ++ sep ++ join sep (y :: l).
Proof. reflexivity. Qed.

Lemma append_assoc (a b c : string) : (a ++ b) ++ c = a ++ (b ++ c).
Proof. induction a; simpl; congruence. Qed.

Lemma append_nil_r (a : string) : a ++ EmptyString = a.
Proof. induction a; simpl; congruence. Qed.

Lemma join_app sep (l1 l2 : list string) :
  l1 <> [] -> l2 <> [] ->
  join sep (l1 ++ l2) = join sep l1 ++ sep ++ join sep l2.
Proof.
  intros N1 N2. induction l1 as [|x [|y t] IH]; [congruence| |].
  - destruct l2; [congruence|]. reflexivity.
  - change ((x :: y :: t) ++ l2)%list with (x :: y :: (t ++ l2))%list.
    rewrite !join_cons. change (y :: (t ++ l2))%list with ((y :: t) ++ l2)%list.
    rewrite IH by discriminate. now rewrite !append_assoc.
Qed.

Lemma nonempty_join_signed (sign : string) (c : ascii) (rest : string) (l : list string) :
  sign = String c rest ->
  nonempty (join ", " (map (append sign) l)) = match l with [] => false | _ => true end.
Proof.
  intros ->. destruct l as [|x [|y t]]; reflexivity.
Qed.

(** The message for two set-shaped values: the [+] members then the [-]
    members, with one separator between any two of them. *)
Lemma change_message_sets (initial v : value) :
  _is_list initial = true -> _is_list v = true ->
  change_message initial v
  = join ", " (plus_minus (sorted (difference (keys_of v) (keys_of initial)))
                          (sorted (difference (keys_of initial) (keys_of v)))).
Proof.
  intros I V. unfold change_message, plus_minus. rewrite I, V. simpl andb. cbv iota.
  cbv zeta.
  rewrite (nonempty_join_signed "+" "+" EmptyString) by reflexivity.
  rewrite (nonempty_join_signed "-" "-" EmptyString) by reflexivity.
  destruct (sorted (difference (keys_of v) (keys_of initial))) as [|a ta];
    destruct (sorted (difference (keys_of initial) (keys_of v))) as [|b tb];
    simpl andb; cbv iota.
  - reflexivity.
  - reflexivity.
  - simpl map at 2. rewrite app_nil_r. simpl join at 2. now rewrite append_nil_r.
  - rewrite join_app; [reflexivity | discriminate | discriminate].
Qed.

Section Description.

Variable jws_sign : dict -> value -> string.
Variable gmtime_stamp : nat -> string.

#[local] Abbreviation setattr := (SignableAttribute_setattr jws_sign gmtime_stamp).

Lemma value_key_cases data : value_key data = "value" \/ value_key data = "values".
Proof. unfold value_key. destruct (dict_has "value" data); auto. Qed.

Lemma value_key_neq data k : k <> "value" -> k <> "values" -> value_key data <> k.
Proof. destruct (value_key_cases data) as [-> | ->]; congruence. Qed.

(** A write that changes the stored value. *)
Lemma setattr_change data name v v' current st :
  normalize v = inr v' ->
  dict_get (value_key data) data = Some current ->
  nothing_to_set current v' = false ->
  setattr data name v st
  = if dict_has "signature" data
    then stamp_and_sign jws_sign gmtime_stamp
           (dict_set (value_key data) v' data) name current v' st
    else (dict_set (value_key data) v' data, st, None).
Proof.
  intros N C T. unfold SignableAttribute_setattr. rewrite N. cbv zeta.
  rewrite C, T. rewrite dict_has_set_other by (apply value_key_neq; discriminate).
  now destruct (dict_has "signature" data).
Qed.

(** A write that finds nothing to set. *)
Lemma setattr_same data name v v' current st :
  normalize v = inr v' ->
  dict_get (value_key data) data = Some current ->
  nothing_to_set current v' = true ->
  setattr data name v st = (data, st, None).
Proof.
  intros N C T. unfold SignableAttribute_setattr. rewrite N. cbv zeta.
  now rewrite C, T.
Qed.

Lemma stamp_and_sign_returns data name initial v st data' st' :
  stamp_and_sign jws_sign gmtime_stamp data name initial v st = (data', st', None) ->
  st' = (tick (fst st), (snd st ++ [(name, change_message initial v)])%list).
Proof.
  unfold stamp_and_sign. intros H.
  repeat match type of H with
         | context [match ?x with _ => _ end] => destruct x; try discriminate H
         end.
  all: now injection H as _ <-.
Qed.

(** C5: when a write replaces a set-shaped value by a set-shaped value on
    an attribute with a signature and returns, the notification it adds is
    the members added, each as [+m], then the members removed, each as [-m],
    joined by [", "]; both groups are in alphabetical order, the first holds
    exactly the keys of the new value that the old one lacks and the second
    exactly the keys of the old value that the new one lacks.  Writing
    [{a, b, c}] and then [{b, c, d}] notifies [+a, +b, +c] and then
    [+d, -a]. *)
Theorem set_change_description :
  (forall data name v v' initial st data' st',
      normalize v = inr v' ->
      dict_get (value_key data) data = Some initial ->
      _is_list initial = true -> _is_list v' = true ->
      nothing_to_set initial v' = false ->
      dict_has "signature" data = true ->
      setattr data name v st = (data', st', None) ->
      exists added removed,
        snd st' = (snd st ++ [(name, join ", " (plus_minus added removed))])%list
        /\ Sorted alphabetical added /\ Sorted alphabetical removed
        /\ (forall m, In m added <-> In m (keys_of v') /\ ~ In m (keys_of initial))
        /\ (forall m, In m removed <-> In m (keys_of initial) /\ ~ In m (keys_of v')))
  /\ (let '(leaf, st, _) :=
        SignableAttribute_setattr sample_jws sample_clock
          (sample_leaf "values" PNone) "ldap" abc (staff_world, []) in
      snd (snd (fst (SignableAttribute_setattr sample_jws sample_clock
                       leaf "ldap" bcd st)))
      = [("ldap", "+a, +b, +c"); ("ldap", "+d, -a")]).
Proof.
  split; [|reflexivity].
  intros data name v v' initial st data' st' N C I V T S W.
  rewrite (setattr_change _ _ _ _ _ _ N C T), S in W.
  apply stamp_and_sign_returns in W. subst st'. simpl.
  rewrite (change_message_sets _ _ I V).
  exists (sorted (difference (keys_of v') (keys_of initial))),
         (sorted (difference (keys_of initial) (keys_of v'))).
  split; [reflexivity|]. split; [apply sorted_Sorted|].
  split; [apply sorted_Sorted|].
  split; intros m; rewrite sorted_In, difference_In; tauto.
Qed.

End Description.

Lemma set_change_description_witness :
  exists added removed,
    snd (snd (fst (SignableAttribute_setattr sample_jws sample_clock
                     (sample_leaf "values" abc) "ldap"
                     (PList [PStr "d"; PStr "c"; PStr "b"]) (staff_world, []))))
    = [("ldap", join ", " (plus_minus added removed))]
    /\ added = ["d"] /\ removed = ["a"].
Proof.
  destruct (proj1 (set_change_description sample_jws sample_clock)
              (sample_leaf "values" abc) "ldap"
              (PList [PStr "d"; PStr "c"; PStr "b"]) bcd abc (staff_world, [])
              (fst (fst (SignableAttribute_setattr sample_jws sample_clock
                           (sample_leaf "values" abc) "ldap"
                           (PList [PStr "d"; PStr "c"; PStr "b"]) (staff_world, []))))
              (snd (fst (SignableAttribute_setattr sample_jws sample_clock
                           (sample_leaf "values" abc) "ldap"
                           (PList [PStr "d"; PStr "c"; PStr "b"]) (staff_world, []))))
              eq_refl eq_refl eq_refl eq_refl eq_refl eq_refl eq_refl)
    as (added & removed & E & _).
  exists ["d"], ["a"]. repeat split; reflexivity.
Defined.

(** ** A write to an attribute, step by step *)

Lemma metadata_of_set_metadata f m d :
  metadata_of f (dict_set "metadata" (PDict m) d) = dict_get f m.
Proof. unfold metadata_of. now rewrite dict_get_set_same. Qed.

Lemma metadata_of_set_other f k x d :
  k <> "metadata" -> metadata_of f (dict_set k x d) = metadata_of f d.
Proof. intros N. unfold metadata_of. now rewrite dict_get_set_other. Qed.

Lemma metadata_of_del_other f k d :
  k <> "metadata" -> metadata_of f (dict_del k d) = metadata_of f d.
Proof. intros N. unfold metadata_of. now rewrite dict_get_del_other. Qed.

Lemma stamped_get ts b m f :
  f <> "created" -> f <> "last_modified" ->
  dict_get f (stamped ts b m) = dict_get f m.
Proof.
  intros N1 N2. unfold stamped. rewrite dict_get_set_other by congruence.
  destruct b; auto. now rewrite dict_get_set_other by congruence.
Qed.

Lemma stamped_created ts b m :
  dict_get "created" (stamped ts b m)
  = if b then Some (PStr ts) else dict_get "created" m.
Proof.
  unfold stamped. rewrite dict_get_set_other by discriminate.
  destruct b; auto using dict_get_set_same.
Qed.

Lemma stamped_last_modified ts b m :
  dict_get "last_modified" (stamped ts b m) = Some (PStr ts).
Proof. apply dict_get_set_same. Qed.

Lemma resolve_display_get w display m m' f :
  resolve_display w display m = inr m' -> f <> "display" ->
  dict_get f m' = dict_get f m.
Proof.
  unfold resolve_display. intros H N.
  destruct (is_None display); [destruct (DISPLAY_LEVEL w)|]; inversion H; auto.
  now rewrite dict_get_set_other by congruence.
Qed.

Lemma well_formed_leaf_inv data :
  well_formed_leaf data = true ->
  exists m created b display,
    dict_get "metadata" data = Some (PDict m)
    /\ dict_get "created" m = Some created
    /\ starts_1970 created = Some b
    /\ dict_get "display" m = Some display
    /\ dict_has "signature" data = true
    /\ dict_has (value_key data) data = true.
Proof.
  unfold well_formed_leaf. intros H.
  apply andb_true_iff in H as [H V]. apply andb_true_iff in H as [H S].
  destruct (dict_get "metadata" data) as [[| | | | |m| |]|]; try discriminate.
  destruct (dict_get "created" m) as [created|] eqn:C; try discriminate.
  destruct (starts_1970 created) as [b|] eqn:B; try discriminate.
  unfold dict_has in H. destruct (dict_get "display" m) as [display|] eqn:D;
    try discriminate.
  exists m, created, b, display. repeat split; auto.
Qed.

Section Leaf.

Variable jws_sign : dict -> value -> string.
Variable gmtime_stamp : nat -> string.

#[local] Abbreviation setattr := (SignableAttribute_setattr jws_sign gmtime_stamp).
#[local] Abbreviation stamp := (stamp_and_sign jws_sign gmtime_stamp).

(** Signing, once the metadata has been found to have [created] text. *)
Lemma stamp_and_sign_stamped data name initial v st m created b :
  dict_get "metadata" data = Some (PDict m) ->
  dict_get "created" m = Some created ->
  starts_1970 created = Some b ->
  stamp data name initial v st
  = let w := tick (fst st) in
    let m1 := stamped (gmtime_stamp (ticks (fst st))) b m in
    let data1 := dict_set "metadata" (PDict m1) data in
    match dict_get "display" m with
    | None => (data1, (w, snd st), Some (KeyError "display"))
    | Some display =>
        match resolve_display w display m1 with
        | inl e => (data1, (w, snd st), Some e)
        | inr m2 =>
            let data2 := dict_set "metadata" (PDict m2) data1 in
            match PUBLISHER_SIGNING_KEY w with
            | None => (data2, (w, snd st),
                       Some (RuntimeError "Unable to load signing key"))
            | Some key =>
                let data3 := dict_del "signature" data2 in
                match PUBLISHER_NAME w with
                | None => (data3, (w, snd st), Some (KeyError "PUBLISHER_NAME"))
                | Some publisher =>
                    (dict_set "signature"
                       (signature_block publisher (jws_sign data3 key)) data3,
                     (w, (snd st ++ [(name, change_message initial v)])%list),
                     None)
                end
            end
        end
    end.
Proof.
  intros M C S. unfold stamp_and_sign. rewrite M, C, S. cbv zeta.
  fold (stamped (gmtime_stamp (ticks (fst st))) b m).
  now rewrite stamped_get by discriminate.
Qed.

(** Signing either stops before it has changed anything, with an exception,
    or finds metadata with [created] text. *)
Lemma stamp_and_sign_cases data name initial v st :
  (exists e, stamp data name initial v st = (data, (tick (fst st), snd st), Some e))
  \/ (exists m created b,
         dict_get "metadata" data = Some (PDict m)
         /\ dict_get "created" m = Some created
         /\ starts_1970 created = Some b).
Proof.
  unfold stamp_and_sign. cbv zeta.
  destruct (dict_get "metadata" data) as [[| | | | |m| |]|] eqn:M;
    try (left; eexists; reflexivity).
  destruct (dict_get "created" m) as [created|] eqn:C;
    try (left; eexists; reflexivity).
  destruct (starts_1970 created) as [b|] eqn:S;
    try (left; eexists; reflexivity).
  right. exists m, created, b. auto.
Qed.

(** Signing touches [metadata] and [signature] only. *)
Lemma stamp_and_sign_get data name initial v st k :
  k <> "metadata" -> k <> "signature" ->
  dict_get k (fst (fst (stamp data name initial v st))) = dict_get k data.
Proof.
  intros N1 N2.
  destruct (stamp_and_sign_cases data name initial v st)
    as [[e ->]|(m & created & b & M & C & S)]; auto.
  rewrite (stamp_and_sign_stamped _ _ _ _ _ _ _ _ M C S). cbv zeta.
  repeat match goal with
         | |- context [match ?x with _ => _ end] => destruct x
         end;
    simpl;
    now rewrite ?dict_get_set_other, ?dict_get_del_other,
                ?dict_get_set_other by congruence.
Qed.

(** The [created] of the metadata after signing: as before, or the
    timestamp when it was the sentinel. *)
Lemma stamp_and_sign_created data name initial v st :
  created_of (fst (fst (stamp data name initial v st))) = created_of data
  \/ (exists c, created_of data = Some c
                /\ starts_1970 c = Some true
                /\ created_of (fst (fst (stamp data name initial v st)))
                   = Some (PStr (gmtime_stamp (ticks (fst st))))).
Proof.
  destruct (stamp_and_sign_cases data name initial v st)
    as [[e ->]|(m & created & b & M & C & S)]; auto.
  assert (created_of data = Some created) as CD
    by (unfold created_of, metadata_of; now rewrite M).
  assert (forall data',
             created_of data'
             = (if b then Some (PStr (gmtime_stamp (ticks (fst st))))
                else Some created) ->
             created_of data' = created_of data
             \/ (exists c, created_of data = Some c /\ starts_1970 c = Some true
                           /\ created_of data'
                              = Some (PStr (gmtime_stamp (ticks (fst st)))))) as K.
  { intros data' E. rewrite E, CD. destruct b; eauto. }
  rewrite (stamp_and_sign_stamped _ _ _ _ _ _ _ _ M C S). cbv zeta.
  unfold created_of in *.
  repeat match goal with
         | |- context [match ?x with _ => _ end] => destruct x eqn:?
         end;
    simpl; apply K;
    rewrite ?metadata_of_set_other, ?metadata_of_del_other,
            ?metadata_of_set_metadata by discriminate;
    try (erewrite resolve_display_get by (eauto; discriminate));
    now rewrite stamped_created, C.
Qed.

(** After signing found its metadata, [last_modified] is the timestamp. *)
Lemma stamp_and_sign_last_modified data name initial v st m created b :
  dict_get "metadata" data = Some (PDict m) ->
  dict_get "created" m = Some created ->
  starts_1970 created = Some b ->
  last_modified_of (fst (fst (stamp data name initial v st)))
  = Some (PStr (gmtime_stamp (ticks (fst st)))).
Proof.
  intros M C S.
  rewrite (stamp_and_sign_stamped _ _ _ _ _ _ _ _ M C S). cbv zeta.
  unfold last_modified_of.
  repeat match goal with
         | |- context [match ?x with _ => _ end] => destruct x eqn:?
         end;
    simpl;
    rewrite ?metadata_of_set_other, ?metadata_of_del_other,
            ?metadata_of_set_metadata by discriminate;
    try (erewrite resolve_display_get by (eauto; discriminate));
    apply stamped_last_modified.
Qed.

Lemma value_key_ext d d' :
  dict_get "value" d' = dict_get "value" d -> value_key d' = value_key d.
Proof. intros E. unfold value_key, dict_has. now rewrite E. Qed.

Lemma value_key_set_self x d : value_key (dict_set (value_key d) x d) = value_key d.
Proof.
  unfold value_key at 2 3. unfold value_key, dict_has.
  destruct (dict_get "value" d) eqn:E.
  - now rewrite dict_get_set_same.
  - now rewrite dict_get_set_other, E by discriminate.
Qed.

(** Whatever a write does, the attribute keeps its [value] or [values] key. *)
Lemma setattr_value_key data name v st :
  value_key (fst (fst (setattr data name v st))) = value_key data.
Proof.
  unfold SignableAttribute_setattr.
  destruct (normalize v) as [e|v']; auto. cbv zeta.
  destruct (dict_get (value_key data) data) as [current|]; auto.
  destruct (nothing_to_set current v'); auto.
  destruct (negb _); simpl; [apply value_key_set_self|].
  rewrite <- (value_key_set_self v' data) at 2.
  apply value_key_ext. apply stamp_and_sign_get; discriminate.
Qed.

(** A write that changes the value stores it, whatever happens next. *)
Lemma setattr_stored data name v v' current st :
  normalize v = inr v' ->
  dict_get (value_key data) data = Some current ->
  nothing_to_set current v' = false ->
  dict_get (value_key data) (fst (fst (setattr data name v st))) = Some v'.
Proof.
  intros N C T. rewrite (setattr_change _ _ _ _ _ _ _ _ N C T).
  destruct (dict_has "signature" data); simpl.
  - rewrite stamp_and_sign_get by (apply value_key_neq; discriminate).
    apply dict_get_set_same.
  - apply dict_get_set_same.
Qed.

(** A write that changes the value of a well-formed attribute, with a
    display level at hand and the signer ready: it returns, and the attribute
    is again well formed, with the level in its metadata. *)
Lemma setattr_signs data name v v' current st level :
  well_formed_leaf data = true ->
  normalize v = inr v' ->
  dict_get (value_key data) data = Some current ->
  nothing_to_set current v' = false ->
  resolved_level data (fst st) = Some level ->
  signer_ready (fst st) = true ->
  exists data',
    setattr data name v st
    = (data', (tick (fst st),
               (snd st ++ [(name, change_message current v')])%list), None)
    /\ display_of data' = Some level
    /\ is_None level = false
    /\ well_formed_leaf data' = true
    /\ dict_get (value_key data') data' = Some v'.
Proof.
  intros W N C T L R.
  pose proof (setattr_value_key data name v st) as VK.
  pose proof (setattr_stored data name v v' current st N C T) as ST.
  destruct (well_formed_leaf_inv _ W) as (m & created & b & display & M & Cr & S & D & Sg & V).
  rewrite (setattr_change _ _ _ _ _ _ _ _ N C T), Sg in *.
  assert (dict_get "metadata" (dict_set (value_key data) v' data) = Some (PDict m)) as M'
    by (rewrite dict_get_set_other; [exact M | apply value_key_neq; discriminate]).
  rewrite (stamp_and_sign_stamped _ _ _ _ _ _ _ _ M' Cr S) in *. cbv zeta in *.
  rewrite D in *.
  unfold signer_ready in R.
  assert (PUBLISHER_SIGNING_KEY (tick (fst st)) = PUBLISHER_SIGNING_KEY (fst st)) as K1
    by reflexivity.
  assert (PUBLISHER_NAME (tick (fst st)) = PUBLISHER_NAME (fst st)) as K2
    by reflexivity.
  rewrite K1, K2 in *.
  destruct (PUBLISHER_SIGNING_KEY (fst st)) as [key|]; [|discriminate].
  destruct (PUBLISHER_NAME (fst st)) as [publisher|]; [|discriminate].
  unfold resolved_level, display_of, metadata_of in L. rewrite M, D in L.
  set (ts := gmtime_stamp (ticks (fst st))) in *.
  assert (exists m2,
             resolve_display (tick (fst st)) display (stamped ts b m) = inr m2
             /\ dict_get "display" m2 = Some level
             /\ is_None level = false
             /\ dict_get "created" m2 = dict_get "created" (stamped ts b m)) as
      (m2 & RD & D2 & NL & C2).
  { unfold resolve_display.
    change (DISPLAY_LEVEL (tick (fst st))) with (DISPLAY_LEVEL (fst st)).
    destruct display; simpl in *;
      try (injection L as <-; eexists; split; [reflexivity|];
           rewrite stamped_get by discriminate; auto).
    destruct (DISPLAY_LEVEL (fst st)) as [l|]; [|discriminate].
    injection L as <-. eexists. split; [reflexivity|].
    rewrite dict_get_set_same, dict_get_set_other by discriminate. auto. }
  rewrite RD in *. simpl in VK, ST.
  eexists. split; [reflexivity|].
  split; [|split; [exact NL|split; [|rewrite VK; exact ST]]].
  - unfold display_of.
    now rewrite metadata_of_set_other, metadata_of_del_other,
                metadata_of_set_metadata by discriminate.
  - unfold well_formed_leaf. rewrite VK.
    rewrite dict_get_set_other, dict_get_del_other, dict_get_set_same
      by discriminate.
    rewrite C2, stamped_created, Cr.
    unfold dict_has at 1. rewrite D2. rewrite dict_has_set_same.
    unfold dict_has. rewrite ST.
    destruct b; [reflexivity | now rewrite S].
Qed.

(** The write of a changed value to a well-formed attribute, up to the
    resolution of the display level. *)
Lemma setattr_to_display data name v v' current st :
  well_formed_leaf data = true ->
  normalize v = inr v' ->
  dict_get (value_key data) data = Some current ->
  nothing_to_set current v' = false ->
  exists m created b display,
    dict_get "metadata" data = Some (PDict m)
    /\ dict_get "created" m = Some created
    /\ starts_1970 created = Some b
    /\ dict_get "display" m = Some display
    /\ setattr data name v st
       = let w := tick (fst st) in
         let m1 := stamped (gmtime_stamp (ticks (fst st))) b m in
         let data0 := dict_set (value_key data) v' data in
         let data1 := dict_set "metadata" (PDict m1) data0 in
         match resolve_display w display m1 with
         | inl e => (data1, (w, snd st), Some e)
         | inr m2 =>
             let data2 := dict_set "metadata" (PDict m2) data1 in
             match PUBLISHER_SIGNING_KEY w with
             | None => (data2, (w, snd st),
                        Some (RuntimeError "Unable to load signing key"))
             | Some key =>
                 let data3 := dict_del "signature" data2 in
                 match PUBLISHER_NAME w with
                 | None => (data3, (w, snd st), Some (KeyError "PUBLISHER_NAME"))
                 | Some publisher =>
                     (dict_set "signature"
                        (signature_block publisher (jws_sign data3 key)) data3,
                      (w, (snd st ++ [(name, change_message current v')])%list),
                      None)
                 end
             end
         end.
Proof.
  intros W N C T.
  destruct (well_formed_leaf_inv _ W)
    as (m & created & b & display & M & Cr & S & D & Sg & V).
  exists m, created, b, display. repeat split; auto.
  rewrite (setattr_change _ _ _ _ _ _ _ _ N C T), Sg.
  assert (dict_get "metadata" (dict_set (value_key data) v' data) = Some (PDict m)) as M'
    by (rewrite dict_get_set_other; [exact M | apply value_key_neq; discriminate]).
  rewrite (stamp_and_sign_stamped _ _ _ _ _ _ _ _ M' Cr S). cbv zeta.
  now rewrite D.
Qed.

End Leaf.

(** ** Timestamps *)

Section Timestamps.

Variable jws_sign : dict -> value -> string.
Variable gmtime_stamp : nat -> string.

#[local] Abbreviation setattr := (SignableAttribute_setattr jws_sign gmtime_stamp).
#[local] Abbreviation writes := (write_all jws_sign gmtime_stamp).

(** One write: [created] stays, or it was the sentinel and becomes the
    timestamp of the write. *)
Lemma setattr_created data name v st :
  created_of (fst (fst (setattr data name v st))) = created_of data
  \/ (exists c, created_of data = Some c
                /\ starts_1970 c = Some true
                /\ created_of (fst (fst (setattr data name v st)))
                   = Some (PStr (gmtime_stamp (ticks (fst st))))).
Proof.
  unfold SignableAttribute_setattr.
  destruct (normalize v) as [e|v']; auto. cbv zeta.
  destruct (dict_get (value_key data) data) as [current|]; auto.
  destruct (nothing_to_set current v'); auto.
  assert (created_of (dict_set (value_key data) v' data) = created_of data) as E
    by (apply metadata_of_set_other, value_key_neq; discriminate).
  destruct (negb _); simpl; auto.
  rewrite <- E. apply stamp_and_sign_created.
Qed.

Lemma setattr_ticks data name v st :
  ticks (fst st) <= ticks (fst (snd (fst (setattr data name v st)))).
Proof.
  pose proof (setattr_tame jws_sign gmtime_stamp data name v st) as [S _].
  unfold steady in S. tauto.
Qed.

(** A sequence of writes: [created] is as at the start or a timestamp. *)
Lemma writes_created data name vs : forall st,
  created_of (fst (writes data name vs st)) = created_of data
  \/ exists n, created_of (fst (writes data name vs st))
               = Some (PStr (gmtime_stamp n)).
Proof.
  revert data. induction vs as [|v t IH]; intros data st; simpl; auto.
  pose proof (setattr_created data name v st) as H.
  destruct (setattr data name v st) as [[data' st'] r]. simpl in H.
  destruct (IH data' st') as [E|[n E]]; [|eauto].
  rewrite E. destruct H as [->|(c & _ & _ & ->)]; eauto.
Qed.

(** A [created] that is not the sentinel outlives every sequence of writes. *)
Lemma writes_keep_created data name vs : forall st c,
  created_of data = Some c -> starts_1970 c <> Some true ->
  created_of (fst (writes data name vs st)) = Some c.
Proof.
  revert data. induction vs as [|v t IH]; intros data st c C S; simpl; auto.
  pose proof (setattr_created data name v st) as H.
  destruct (setattr data name v st) as [[data' st'] r]. simpl in H.
  apply IH; auto. destruct H as [->|(c' & C' & S' & _)]; auto. congruence.
Qed.

Lemma writes_app data name vs1 vs2 st :
  writes data name (vs1 ++ vs2) st
  = writes (fst (writes data name vs1 st)) name vs2 (snd (writes data name vs1 st)).
Proof.
  revert data st. induction vs1 as [|v t IH]; intros data st; simpl; auto.
  destruct (setattr data name v st) as [[data' st'] r]. apply IH.
Qed.

(** C6, as the code has it: with a clock that does not read 1970.  A write
    leaves [created] as it is, or finds the sentinel there and puts the time
    of the write; in any sequence of writes, once [created] differs from
    what it was at the start, it stays the same through all the writes that
    follow.  A write that changes the value of an attribute with a
    [signature] and with [created] text in its metadata leaves the time of
    the write in [last_modified].  A write that changes the value of an
    attribute without a [signature] stores the value and nothing else:
    [last_modified] is what it was. *)
Theorem created_once_last_modified_each_change :
  (forall n, starts_1970 (PStr (gmtime_stamp n)) = Some false) ->
  (forall data name v st,
      created_of (fst (fst (setattr data name v st))) = created_of data
      \/ (exists c, created_of data = Some c
                    /\ starts_1970 c = Some true
                    /\ created_of (fst (fst (setattr data name v st)))
                       = Some (PStr (gmtime_stamp (ticks (fst st))))))
  /\ (forall data name vs1 vs2 st,
        created_of (fst (writes data name vs1 st)) <> created_of data ->
        created_of (fst (writes data name (vs1 ++ vs2) st))
        = created_of (fst (writes data name vs1 st)))
  /\ (forall data name v v' current st created sentinel,
        dict_has "signature" data = true ->
        created_of data = Some created ->
        starts_1970 created = Some sentinel ->
        normalize v = inr v' ->
        dict_get (value_key data) data = Some current ->
        nothing_to_set current v' = false ->
        SignableAttribute_value (fst (fst (setattr data name v st))) = v'
        /\ last_modified_of (fst (fst (setattr data name v st)))
           = Some (PStr (gmtime_stamp (ticks (fst st)))))
  /\ (forall data name v v' current st,
        dict_has "signature" data = false ->
        normalize v = inr v' ->
        dict_get (value_key data) data = Some current ->
        nothing_to_set current v' = false ->
        setattr data name v st = (dict_set (value_key data) v' data, st, None)
        /\ SignableAttribute_value (fst (fst (setattr data name v st))) = v'
        /\ last_modified_of (fst (fst (setattr data name v st)))
           = last_modified_of data
        /\ created_of (fst (fst (setattr data name v st))) = created_of data).
Proof.
  intros Clock.
  assert (forall data name v v' current st,
             normalize v = inr v' ->
             dict_get (value_key data) data = Some current ->
             nothing_to_set current v' = false ->
             SignableAttribute_value (fst (fst (setattr data name v st))) = v')
    as Stored.
  { intros data name v v' current st N C T.
    pose proof (setattr_stored jws_sign gmtime_stamp data name v v' current st N C T) as ST.
    pose proof (setattr_value_key jws_sign gmtime_stamp data name v st) as VK.
    unfold SignableAttribute_value, get_or_None.
    unfold value_key, dict_has in VK, ST.
    destruct (dict_get "value" data) eqn:E1;
      destruct (dict_get "value" (fst (fst (setattr data name v st)))) eqn:E2;
      try discriminate VK; [congruence | now rewrite ST]. }
  split; [apply setattr_created|]. split; [|split].
  - intros data name vs1 vs2 st Changed. rewrite writes_app.
    destruct (writes_created data name vs1 st) as [E|[n E]]; [contradiction|].
    rewrite E. apply writes_keep_created; auto.
    rewrite Clock. discriminate.
  - intros data name v v' current st created sentinel Sg Cr S N C T.
    split; [eapply Stored; eauto|].
    unfold created_of, metadata_of in Cr.
    destruct (dict_get "metadata" data) as [[| | | | |m| |]|] eqn:M;
      try discriminate.
    rewrite (setattr_change _ _ _ _ _ _ _ _ N C T), Sg.
    apply (stamp_and_sign_last_modified _ _ _ _ _ _ _ m created sentinel); auto.
    rewrite dict_get_set_other; [exact M | apply value_key_neq; discriminate].
  - intros data name v v' current st Sg N C T.
    pose proof (Stored data name v v' current st N C T) as ST.
    rewrite (setattr_change _ _ _ _ _ _ _ _ N C T), Sg in *.
    repeat split; auto.
    + apply metadata_of_set_other, value_key_neq; discriminate.
    + apply metadata_of_set_other, value_key_neq; discriminate.
Qed.

End Timestamps.

Lemma sample_clock_after_1970 (n : nat) :
  starts_1970 (PStr (sample_clock n)) = Some false.
Proof. reflexivity. Qed.

Lemma created_once_last_modified_each_change_witness :
  created_of (fst (write_all sample_jws sample_clock
                     (sample_leaf "value" (PStr "old")) "fun_title"
                     [PStr "new"; PStr "newer"; PStr "newest"] (staff_world, [])))
  = created_of (fst (write_all sample_jws sample_clock
                       (sample_leaf "value" (PStr "old")) "fun_title"
                       [PStr "new"] (staff_world, [])))
  /\ last_modified_of
       (fst (fst (SignableAttribute_setattr sample_jws sample_clock
                    (sample_leaf "value" (PStr "old")) "fun_title" (PStr "new")
                    (staff_world, []))))
     = Some (PStr (sample_clock 0))
  /\ last_modified_of
       (fst (fst (SignableAttribute_setattr sample_jws sample_clock
                    unsigned_leaf "fun_title" (PStr "new") (staff_world, []))))
     = Some (PStr epoch).
Proof.
  destruct (created_once_last_modified_each_change sample_jws sample_clock
              sample_clock_after_1970) as (_ & Once & Each & Unsigned).
  split; [|split].
  - apply (Once (sample_leaf "value" (PStr "old")) "fun_title"
                [PStr "new"] [PStr "newer"; PStr "newest"] (staff_world, [])).
    discriminate.
  - apply (Each (sample_leaf "value" (PStr "old")) "fun_title" (PStr "new")
                (PStr "new") (PStr "old") (staff_world, []) (PStr epoch) true);
      reflexivity.
  - apply (Unsigned unsigned_leaf "fun_title" (PStr "new") (PStr "new")
                    (PStr "old") (staff_world, []));
      reflexivity.
Defined.

(** An attribute with metadata and no [signature]: a write changes its
    value, and [last_modified] is still the sentinel, as is [created]. *)
Lemma unsigned_leaf_keeps_last_modified :
  let written := SignableAttribute_setattr sample_jws sample_clock
                   unsigned_leaf "fun_title" (PStr "new") (staff_world, []) in
  SignableAttribute_value unsigned_leaf = PStr "old"
  /\ snd written = None
  /\ SignableAttribute_value (fst (fst written)) = PStr "new"
  /\ last_modified_of (fst (fst written)) = Some (PStr epoch)
  /\ created_of (fst (fst written)) = Some (PStr epoch)
  /\ snd (snd (fst written)) = [].
Proof. repeat split; reflexivity. Qed.

(** ** Writing the same value again *)

Lemma py_eq_mapping (d1 : dict) (b : value) :
  py_eq (PDict d1) b
  = match as_mapping b with
    | Some d2 => Nat.eqb (List.length d1) (List.length d2) && entries_eq py_eq d2 d1
    | None => false
    end.
Proof. reflexivity. Qed.

Lemma wf_value_entries (d : dict) :
  (fix entries (d : dict) : Prop :=
     match d with
     | [] => True
     | (_, x) :: t => wf_value x /\ entries t
     end) d
  <-> Forall (fun kv => wf_value (snd kv)) d.
Proof.
  induction d as [|[k x] t IH]; simpl.
  - split; constructor.
  - rewrite IH. split.
    + intros [A B]. now constructor.
    + intros H. inversion H; subst. auto.
Qed.

Lemma wf_value_members (l : list value) :
  (fix members (l : list value) : Prop :=
     match l with
     | [] => True
     | x :: t => wf_value x /\ members t
     end) l
  <-> Forall wf_value l.
Proof.
  induction l as [|x t IH]; simpl.
  - split; constructor.
  - rewrite IH. split.
    + intros [A B]. now constructor.
    + intros H. inversion H; subst. auto.
Qed.

Lemma dict_get_NoDup (d : dict) (k : string) (x : value) :
  NoDup (keys d) -> In (k, x) d -> dict_get k d = Some x.
Proof.
  induction d as [|[k' x'] t IH]; simpl; intros N I; [destruct I|].
  inversion N as [|? ? N1 N2]; subst.
  destruct I as [[= -> ->]|I].
  - now rewrite String.eqb_refl.
  - destruct (String.eqb_spec k k') as [->|]; auto.
    exfalso. apply N1. apply (in_map fst) in I. exact I.
Qed.

Lemma entries_eq_refl (d l : dict) :
  NoDup (keys d) -> incl l d ->
  Forall (fun kv => py_eq (snd kv) (snd kv) = true) l ->
  entries_eq py_eq d l = true.
Proof.
  intros N. induction l as [|[k x] t IH]; intros I F; simpl; auto.
  inversion F as [|? ? Fx Ft]; subst. simpl in Fx.
  rewrite (dict_get_NoDup d k x N) by (apply I; now left).
  rewrite Fx. simpl. apply IH; auto. intros y Y. apply I. now right.
Qed.

(** [v == v] holds for a value without a repeated key. *)
Lemma py_eq_refl (v : value) : wf_value v -> py_eq v v = true.
Proof.
  induction v as [|b|z|s|l IH|d IH|d n IH|d IH] using value_nested_ind;
    intros W; simpl in W.
  - reflexivity.
  - simpl. now destruct b.
  - simpl. apply Z.eqb_refl.
  - simpl. apply String.eqb_refl.
  - apply wf_value_members in W. simpl.
    induction l as [|x t IHt]; auto.
    inversion IH; subst. inversion W; subst.
    rewrite H1 by auto. simpl. apply IHt; auto.
  - destruct W as [N W]. apply wf_value_entries in W.
    rewrite py_eq_mapping. simpl. rewrite Nat.eqb_refl. simpl.
    apply entries_eq_refl; auto using incl_refl.
    rewrite Forall_forall in *. intros kv I. apply IH; auto.
  - destruct W as [N W]. apply wf_value_entries in W.
    change (py_eq (SignableAttribute d n) (SignableAttribute d n))
      with (Nat.eqb (List.length d) (List.length d) && entries_eq py_eq d d).
    rewrite Nat.eqb_refl. simpl.
    apply entries_eq_refl; auto using incl_refl.
    rewrite Forall_forall in *. intros kv I. apply IH; auto.
  - destruct W as [N W]. apply wf_value_entries in W.
    change (py_eq (ProfileDict d) (ProfileDict d))
      with (Nat.eqb (List.length d) (List.length d) && entries_eq py_eq d d).
    rewrite Nat.eqb_refl. simpl.
    apply entries_eq_refl; auto using incl_refl.
    rewrite Forall_forall in *. intros kv I. apply IH; auto.
Qed.

Lemma dict_set_In (k : string) (x : value) (d : dict) (kv : string * value) :
  In kv (dict_set k x d) -> kv = (k, x) \/ In kv d.
Proof.
  induction d as [|[k' x'] t IH]; simpl.
  - intros [<-|[]]. now left.
  - destruct (String.eqb_spec k k') as [->|]; simpl; intros [<-|I]; auto.
    destruct (IH I); auto.
Qed.

Lemma keys_dict_set_NoDup (k : string) (x : value) (d : dict) :
  NoDup (keys d) -> NoDup (keys (dict_set k x d)).
Proof.
  intros N. destruct (in_dec string_dec k (keys d)) as [I|I].
  - now rewrite keys_dict_set_present.
  - rewrite keys_dict_set_absent by auto. apply NoDup_app; auto.
    + constructor; [intros []|constructor].
    + intros y Y [<-|[]]. contradiction.
Qed.

Lemma listify_wf (l : list value) (v : value) : listify l = inr v -> wf_value v.
Proof.
  intros L. apply listify_returns in L as (ss & _ & ->).
  assert (forall ss acc,
             NoDup (keys acc) -> Forall (fun kv => wf_value (snd kv)) acc ->
             NoDup (keys (fold_left (fun d s => dict_set s PNone d) ss acc))
             /\ Forall (fun kv => wf_value (snd kv))
                       (fold_left (fun d s => dict_set s PNone d) ss acc)) as H.
  { clear. induction ss as [|s t IH]; intros acc N F; simpl; auto.
    apply IH; auto using keys_dict_set_NoDup.
    rewrite Forall_forall in *. intros kv I.
    destruct (dict_set_In _ _ _ _ I) as [->|J]; simpl; auto. }
  destruct (H (sorted ss) [] (NoDup_nil _) (Forall_nil _)) as [N F].
  simpl. split; auto. now apply wf_value_entries.
Qed.

Lemma normalize_wf (v v' : value) : wf_value v -> normalize v = inr v' -> wf_value v'.
Proof.
  intros W. unfold normalize.
  destruct v as [| | | |[|x l]| | |];
    try (intros [= <-]; first [assumption | exact I]).
  destruct (listify (x :: l)) as [e|w] eqn:L; [discriminate|].
  apply listify_wf in L. destruct w; intros [= <-]; first [assumption | exact I].
Qed.

Section Repeated.

Variable jws_sign : dict -> value -> string.
Variable gmtime_stamp : nat -> string.

#[local] Abbreviation setattr := (SignableAttribute_setattr jws_sign gmtime_stamp).

Lemma stamp_and_sign_notes data name initial v st :
  let notes' := snd (snd (fst (stamp_and_sign jws_sign gmtime_stamp data name
                                 initial v st))) in
  notes' = snd st \/ notes' = (snd st ++ [(name, change_message initial v)])%list.
Proof.
  destruct (stamp_and_sign_cases jws_sign gmtime_stamp data name initial v st)
    as [[e ->]|(m & created & b & M & C & S)]; [now left|].
  rewrite (stamp_and_sign_stamped _ _ _ _ _ _ _ _ _ _ M C S). cbv zeta.
  repeat match goal with
         | |- context [match ?x with _ => _ end] => destruct x
         end; simpl; auto.
Qed.

(** A write adds one notification at most. *)
Lemma setattr_notes data name v st :
  snd (snd (fst (setattr data name v st))) = snd st
  \/ exists n, snd (snd (fst (setattr data name v st))) = (snd st ++ [n])%list.
Proof.
  unfold SignableAttribute_setattr.
  destruct (normalize v) as [e|v']; auto. cbv zeta.
  destruct (dict_get (value_key data) data) as [current|]; auto.
  destruct (nothing_to_set current v'); auto.
  destruct (negb _); simpl; auto.
  destruct (stamp_and_sign_notes (dict_set (value_key data) v' data) name
              current v' st) as [E|E]; rewrite E; eauto.
Qed.

(** The second of two writes of [v] in a row finds nothing to set. *)
Lemma setattr_again data name v st :
  wf_value v ->
  fst (setattr (fst (fst (setattr data name v st))) name v
               (snd (fst (setattr data name v st))))
  = fst (setattr data name v st).
Proof.
  intros W.
  pose proof (setattr_value_key jws_sign gmtime_stamp data name v st) as VK.
  destruct (normalize v) as [e|v'] eqn:N.
  - unfold SignableAttribute_setattr. rewrite !N. simpl. now rewrite ?N.
  - destruct (dict_get (value_key data) data) as [current|] eqn:C.
    + destruct (nothing_to_set current v') eqn:T.
      * rewrite (setattr_same _ _ _ _ _ _ _ _ N C T). simpl.
        now rewrite (setattr_same _ _ _ _ _ _ _ _ N C T).
      * pose proof (setattr_stored jws_sign gmtime_stamp data name v v' current
                      st N C T) as ST.
        rewrite <- VK in ST.
        destruct (setattr data name v st) as [[data1 st1] r1]. simpl in *.
        rewrite (setattr_same _ _ data1 name v v' v' st1 N ST); auto.
        unfold nothing_to_set.
        now rewrite (py_eq_refl v' (normalize_wf _ _ W N)).
    + unfold SignableAttribute_setattr. rewrite !N. cbv zeta. rewrite !C. simpl.
      rewrite ?N. cbv zeta. now rewrite ?C.
Qed.

(** C2, as the code has it.  After a write of a value [v] the same write
    again changes neither the attribute nor the notifications nor the
    clock, and the two writes together add one notification at most; they
    add exactly one when the first changes the value of a well-formed
    attribute with a display level at hand and the signer ready.  A write of
    a value equal to the current one, after the list and number conversion,
    changes nothing and notifies nothing; so does a write of [None], [[]]
    or [{}] to an attribute whose current value is [None]. *)
Theorem repeated_write_changes_nothing :
  (forall data name v st,
      wf_value v ->
      fst (setattr (fst (fst (setattr data name v st))) name v
                   (snd (fst (setattr data name v st))))
      = fst (setattr data name v st)
      /\ (snd (snd (fst (setattr data name v st))) = snd st
          \/ exists n, snd (snd (fst (setattr data name v st)))
                       = (snd st ++ [n])%list))
  /\ (forall data name v v' current st level,
        well_formed_leaf data = true ->
        normalize v = inr v' ->
        dict_get (value_key data) data = Some current ->
        nothing_to_set current v' = false ->
        resolved_level data (fst st) = Some level ->
        signer_ready (fst st) = true ->
        snd (snd (fst (setattr data name v st)))
        = (snd st ++ [(name, change_message current v')])%list)
  /\ (forall data name v v' current st,
        normalize v = inr v' ->
        dict_get (value_key data) data = Some current ->
        py_eq current v' = true ->
        setattr data name v st = (data, st, None))
  /\ (forall data name v st,
        dict_get (value_key data) data = Some PNone ->
        In v [PNone; PList []; PDict []] ->
        setattr data name v st = (data, st, None)).
Proof.
  split; [|split; [|split]].
  - intros data name v st W. split; [now apply setattr_again | apply setattr_notes].
  - intros data name v v' current st level W N C T L R.
    destruct (setattr_signs jws_sign gmtime_stamp data name v v' current st level
                W N C T L R) as (data' & E & _).
    now rewrite E.
  - intros data name v v' current st N C E.
    apply (setattr_same _ _ _ _ _ v' current); auto.
    unfold nothing_to_set. now rewrite E.
  - intros data name v st C [<-|[<-|[<-|[]]]];
      (eapply setattr_same; [reflexivity | exact C | reflexivity]).
Qed.

End Repeated.

Lemma repeated_write_changes_nothing_witness :
  fst (SignableAttribute_setattr sample_jws sample_clock
         (fst (fst (SignableAttribute_setattr sample_jws sample_clock
                      (sample_leaf "values" abc) "ldap" bcd (staff_world, []))))
         "ldap" bcd
         (snd (fst (SignableAttribute_setattr sample_jws sample_clock
                      (sample_leaf "values" abc) "ldap" bcd (staff_world, [])))))
  = fst (SignableAttribute_setattr sample_jws sample_clock
           (sample_leaf "values" abc) "ldap" bcd (staff_world, [])).
Proof.
  apply (proj1 (repeated_write_changes_nothing sample_jws sample_clock)
               (sample_leaf "values" abc) "ldap" bcd (staff_world, [])).
  simpl. repeat split; auto; repeat constructor; simpl; intuition discriminate.
Defined.

(** The attribute holds the empty mapping [{}]; writing [None] to it changes
    the value, refreshes [last_modified] and notifies. *)
Lemma None_onto_empty_mapping_is_a_change :
  let '(data', st', r) :=
    SignableAttribute_setattr sample_jws sample_clock empty_mapping_leaf "ldap"
                              PNone (staff_world, []) in
  SignableAttribute_value empty_mapping_leaf = PDict []
  /\ r = None
  /\ SignableAttribute_value data' = PNone
  /\ last_modified_of empty_mapping_leaf = Some (PStr epoch)
  /\ last_modified_of data' = Some (PStr (sample_clock 0))
  /\ snd st' = [("ldap", "{} --> None")].
Proof. repeat split; reflexivity. Qed.

(** ** From the flat view to the raw tree and back *)

Lemma flat_of_ProfileDict (d : dict) :
  flat_of (ProfileDict d) = PDict (flat_entries d).
Proof.
  simpl. f_equal. induction d as [|[k x] t IH]; simpl; congruence.
Qed.

Lemma keys_flat_entries (d : dict) : keys (flat_entries d) = keys d.
Proof. unfold keys, flat_entries. rewrite map_map. reflexivity. Qed.

Lemma keys_app (a b : dict) : keys (a ++ b)%list = (keys a ++ keys b)%list.
Proof. apply map_app. Qed.

Lemma dict_get_app_absent (k : string) (pre l : dict) :
  ~ In k (keys pre) -> dict_get k (pre ++ l)%list = dict_get k l.
Proof.
  induction pre as [|[k' x] t IH]; simpl; auto.
  intros N. destruct (String.eqb_spec k k') as [->|]; [tauto|]. apply IH. tauto.
Qed.

Lemma dict_set_app_absent (k : string) (x y : value) (pre l : dict) :
  ~ In k (keys pre) ->
  dict_set k x (pre ++ (k, y) :: l)%list = (pre ++ (k, x) :: l)%list.
Proof.
  induction pre as [|[k' z] t IH]; simpl.
  - now rewrite String.eqb_refl.
  - intros N. destruct (String.eqb_spec k k') as [->|]; [tauto|].
    f_equal. apply IH. tauto.
Qed.

Lemma dict_set_append (k : string) (x : value) (pre : dict) :
  ~ In k (keys pre) -> dict_set k x pre = (pre ++ [(k, x)])%list.
Proof.
  induction pre as [|[k' z] t IH]; simpl; auto.
  intros N. destruct (String.eqb_spec k k') as [->|]; [tauto|].
  f_equal. apply IH. tauto.
Qed.

Lemma app_cons_assoc {A : Type} (pre : list A) (x : A) (l : list A) :
  (pre ++ x :: l = (pre ++ [x]) ++ l)%list.
Proof. now rewrite <- app_assoc. Qed.

Lemma value_of_key (a : dict) (c : value) :
  dict_get (value_key a) a = Some c -> SignableAttribute_value a = c.
Proof.
  unfold value_key, SignableAttribute_value, get_or_None, dict_has.
  destruct (dict_get "value" a) eqn:E; intros H; [congruence | now rewrite H].
Qed.

Lemma has_value_key (a : dict) :
  has_value a = true -> exists c, dict_get (value_key a) a = Some c.
Proof.
  unfold has_value, value_key, dict_has.
  destruct (dict_get "value" a) eqn:E; simpl; [rewrite E; eauto|].
  destruct (dict_get "values" a); [eauto | discriminate].
Qed.

Lemma key_has_value (a : dict) (c : value) :
  dict_get (value_key a) a = Some c -> has_value a = true.
Proof.
  unfold has_value, value_key, dict_has.
  destruct (dict_get "value" a) eqn:E; simpl; auto.
  now intros ->.
Qed.

Lemma conforms_keys D R : conforms D R -> keys D = keys R.
Proof. induction 1; simpl; congruence. Qed.

(** *** Lists as sets *)

Lemma to_None_keys (l : list string) (acc : dict) (s : string) :
  In s (keys (to_None l acc)) <-> In s (keys acc) \/ In s l.
Proof.
  revert acc. induction l as [|x t IH]; intros acc; simpl; [tauto|].
  rewrite IH. destruct (in_dec string_dec x (keys acc)) as [I|I].
  - rewrite keys_dict_set_present by exact I. intuition (subst; auto).
  - rewrite keys_dict_set_absent, in_app_iff by exact I. simpl. intuition.
Qed.

Lemma to_None_NoDup (l : list string) (acc : dict) :
  NoDup (keys acc) -> NoDup (keys (to_None l acc)).
Proof.
  revert acc. induction l as [|x t IH]; intros acc N; simpl; auto.
  apply IH. now apply keys_dict_set_NoDup.
Qed.

Lemma to_None_values (l : list string) (acc : dict) :
  (forall kv, In kv acc -> snd kv = PNone) ->
  forall kv, In kv (to_None l acc) -> snd kv = PNone.
Proof.
  revert acc. induction l as [|x t IH]; intros acc A; simpl; auto.
  apply IH. intros kv I. destruct (dict_set_In _ _ _ _ I) as [->|I']; auto.
Qed.

Lemma all_None_map (d : dict) :
  (forall kv, In kv d -> snd kv = PNone) -> d = map (fun k => (k, PNone)) (keys d).
Proof.
  induction d as [|[k x] t IH]; simpl; auto. intros A.
  rewrite <- IH by auto. pose proof (A (k, x) (or_introl eq_refl)) as H.
  simpl in H. now subst.
Qed.

(** The mapping a list of strings becomes holds the members of the list,
    each once, with the value [None]. *)
Lemma listify_set (l : list value) (v : value) :
  listify l = inr v ->
  exists ss ks,
    strings_of l = Some ss
    /\ NoDup ks
    /\ (forall s, In s ks <-> In s ss)
    /\ v = set_of ks.
Proof.
  intros L. apply listify_returns in L as (ss & S & ->).
  exists ss, (keys (to_None (sorted ss) [])).
  split; [exact S|]. split; [apply to_None_NoDup; constructor|].
  split; [intros s; rewrite to_None_keys, sorted_In; simpl; tauto|].
  unfold set_of. f_equal. apply all_None_map.
  apply to_None_values. intros ? [].
Qed.

Lemma is_blank_set_of (ks : list string) :
  ks <> [] -> is_blank (set_of ks) = false.
Proof. now destruct ks. Qed.

Section RoundTrip.

Variable jws_sign : dict -> value -> string.
Variable gmtime_stamp : nat -> string.

#[local] Abbreviation setattr := (SignableAttribute_setattr jws_sign gmtime_stamp).
#[local] Abbreviation walk_item' := (walk_item jws_sign gmtime_stamp).
#[local] Abbreviation walk := (_walk jws_sign gmtime_stamp).

(** *** Raw to flat *)

(** The walk from a raw tree into a flat view that has none of its keys
    appends the flat reading of every entry, and changes nothing else. *)
Lemma walk_raw_to_flat R :
  raw_tree R ->
  forall pre st,
    (forall k, In k (keys R) -> ~ In k (keys pre)) ->
    for_items walk_item' R (PDict pre) st
    = (PDict (pre ++ flat_entries R)%list, st, None).
Proof.
  induction 1 as [|k s R N _ IH|k a name R V N _ IH|k R2 R _ IH2 N _ IH];
    intros pre st Fresh.
  - simpl. now rewrite app_nil_r.
  - assert (~ In k (keys pre)) as Nk by (apply Fresh; now left).
    simpl. rewrite (dict_set_append _ _ _ Nk).
    rewrite (app_cons_assoc pre (k, PStr s) (flat_entries R)).
    apply IH. intros k' I. rewrite keys_app. simpl. rewrite in_app_iff.
    intros [J|[<-|[]]]; [|contradiction]. apply (Fresh k'); auto. now right.
  - assert (~ In k (keys pre)) as Nk by (apply Fresh; now left).
    assert (dict_get k pre = None) as G by now apply dict_get_None_keys.
    cbn [for_items]. rewrite (walk_item_read_leaf _ _ _ _ _ _ _ G V).
    rewrite (dict_set_append _ _ _ Nk).
    change (flat_entries ((k, SignableAttribute a name) :: R))
      with ((k, SignableAttribute_value a) :: flat_entries R).
    rewrite (app_cons_assoc pre (k, SignableAttribute_value a) (flat_entries R)).
    apply IH. intros k' I. rewrite keys_app. simpl. rewrite in_app_iff.
    intros [J|[<-|[]]]; [|contradiction]. apply (Fresh k'); auto. now right.
  - assert (~ In k (keys pre)) as Nk by (apply Fresh; now left).
    assert (dict_get k pre = None) as G by now apply dict_get_None_keys.
    cbn [for_items].
    assert (walk_item' k (ProfileDict R2) (PDict pre) st
            = (PDict (pre ++ [(k, PDict (flat_entries R2))])%list, st, None)) as ->.
    { simpl. unfold node_get, get_or_None. simpl. rewrite G.
      unfold descend, node_getitem. simpl. rewrite dict_get_set_same.
      rewrite (IH2 [] st) by (intros; intros []). simpl.
      rewrite dict_set_twice. now rewrite (dict_set_append _ _ _ Nk). }
    change (flat_entries ((k, ProfileDict R2) :: R))
      with ((k, flat_of (ProfileDict R2)) :: flat_entries R).
    rewrite flat_of_ProfileDict.
    rewrite (app_cons_assoc pre (k, PDict (flat_entries R2)) (flat_entries R)).
    apply IH. intros k' I. rewrite keys_app. simpl. rewrite in_app_iff.
    intros [J|[<-|[]]]; [|contradiction]. apply (Fresh k'); auto. now right.
Qed.

(** *** Flat to raw *)

Lemma dict_set_same (k : string) (x : value) (d : dict) :
  dict_get k d = Some x -> dict_set k x d = d.
Proof.
  induction d as [|[k' y] t IH]; simpl; [discriminate|].
  destruct (String.eqb_spec k k') as [->|]; intros H.
  - now injection H as ->.
  - now rewrite IH.
Qed.

(** The value of an attribute after a write that returns: what it was when
    there was nothing to set, and else the normal form of what was
    written. *)
Lemma setattr_value a name v v' current st a' st' :
  normalize v = inr v' ->
  dict_get (value_key a) a = Some current ->
  setattr a name v st = (a', st', None) ->
  dict_get (value_key a') a'
  = Some (if nothing_to_set current v' then current else v').
Proof.
  intros N C W.
  pose proof (setattr_value_key jws_sign gmtime_stamp a name v st) as VK.
  destruct (nothing_to_set current v') eqn:T.
  - rewrite (setattr_same _ _ _ _ _ _ _ _ N C T) in W. now injection W as <- <-.
  - pose proof (setattr_stored jws_sign gmtime_stamp a name v v' current st N C T) as ST.
    rewrite W in VK, ST. simpl in VK, ST. now rewrite VK.
Qed.

Lemma setattr_normalizes a name v st a' st' :
  setattr a name v st = (a', st', None) -> exists v', normalize v = inr v'.
Proof.
  unfold SignableAttribute_setattr.
  destruct (normalize v) as [e|v']; [discriminate | eauto].
Qed.

(** A write that returns leaves an attribute with a [value] or [values]. *)
Lemma setattr_has_value a name v st a' st' :
  has_value a = true ->
  setattr a name v st = (a', st', None) ->
  has_value a' = true.
Proof.
  intros V W. destruct (has_value_key _ V) as [current C].
  destruct (setattr_normalizes _ _ _ _ _ _ W) as [v' N].
  eapply key_has_value. eapply setattr_value; eauto.
Qed.

(** A write that returns, where the walk makes one: what the attribute
    then holds is what the specification says is read back. *)
Lemma setattr_reads_back a name v st a' st' :
  has_value a = true ->
  setattr a name v st = (a', st', None) ->
  py_eq (SignableAttribute_value a) v = false \/ (exists s, v = PStr s) ->
  reads_back (SignableAttribute_value a) v (SignableAttribute_value a').
Proof.
  intros V W Wr. destruct (has_value_key _ V) as [current C].
  destruct (setattr_normalizes _ _ _ _ _ _ W) as [v' N].
  pose proof (setattr_value _ _ _ _ _ _ _ _ N C W) as ST.
  apply value_of_key in ST. rewrite ST. rewrite (value_of_key _ _ C) in *.
  clear ST W V C. unfold reads_back.
  destruct (py_eq current v) eqn:E.
  { destruct Wr as [Wr|[s ->]]; [congruence|].
    simpl in N. injection N as <-. unfold nothing_to_set. now rewrite E. }
  clear Wr. unfold nothing_to_set.
  destruct v as [|b|z|s|[|x l]|d|d n|d]; unfold normalize in N;
    try (injection N as <-; rewrite E; cbn [orb];
         now destruct (is_None current && _) eqn:B;
           [apply andb_true_iff in B as [B _]; destruct current; try discriminate|]).
  - injection N as <-. cbn [is_blank existsb py_eq is_None as_mapping].
    rewrite !orb_false_r, andb_false_r, orb_false_r.
    destruct (py_eq current (PStr (str_of_int z))) eqn:P; auto.
    destruct current; try discriminate. simpl in P.
    apply String.eqb_eq in P. now subst.
  - destruct (listify (x :: l)) as [e|w0] eqn:L; [discriminate|].
    pose proof (listify_wf _ _ L) as Wf.
    destruct (listify_set _ _ L) as (ss & ks & S & ND & M & ->).
    unfold set_of in N. injection N as <-. fold (set_of ks).
    exists ss, ks. repeat split; auto; try apply M.
    assert (ks <> []) as NE.
    { destruct ss as [|s0 ss].
      - simpl in S. destruct x; try discriminate.
        destruct (strings_of l); discriminate.
      - intros ->. apply (proj2 (M s0)). now left. }
    change (existsb (fun e => py_eq e (set_of ks)) [PNone; PList []; PDict []])
      with (is_blank (set_of ks)).
    rewrite (is_blank_set_of _ NE), andb_false_r, orb_false_r.
    destruct (py_eq current (set_of ks)) eqn:P; auto.
    now apply py_eq_refl.
Qed.

(** The turn of the sign walk at an attribute: nothing is written where the
    attribute holds a value equal to the flat one, which is not an unsigned
    string; else the flat value is written. *)
Lemma walk_item_leaf k v d a name st out st' :
  dict_get k d = Some (SignableAttribute a name) ->
  walk_item' k v (ProfileDict d) st = (out, st', None) ->
  exists a',
    out = ProfileDict (dict_set k (SignableAttribute a' name) d)
    /\ ((a' = a /\ st' = st /\ py_eq (SignableAttribute_value a) v = true)
        \/ (setattr a name v st = (a', st', None)
            /\ (py_eq (SignableAttribute_value a) v = false
                \/ exists s, v = PStr s))).
Proof.
  intros G W.
  destruct v as [| | |s| | | |]; simpl in W;
    unfold node_get, get_or_None, ProfileDict_setitem in W; simpl in W;
    rewrite G in W;
    try match type of W with
        | context [negb (py_eq ?x ?y)] => destruct (negb (py_eq x y)) eqn:E
        end;
    try match type of W with
        | context [SignableAttribute_setattr ?j ?g ?b ?n ?x ?s0] =>
            let S := fresh "S" in
            destruct (SignableAttribute_setattr j g b n x s0) as [[a1 st1] r1] eqn:S;
            simpl in W; injection W as <- <- ->;
            exists a1; split; [reflexivity|]; right; split; [reflexivity|];
            first [left; now apply negb_true_iff in E | right; eauto]
        end;
    injection W as <- <-; exists a;
    rewrite (dict_set_same _ _ _ G);
    (split; [reflexivity|]); left; repeat split; now apply negb_false_iff in E.
Qed.

(** The turn of the sign walk at an unsigned string. *)
Lemma walk_item_str k s s0 d st :
  dict_get k d = Some (PStr s0) ->
  walk_item' k (PStr s) (ProfileDict d) st = (ProfileDict d, st, None).
Proof. intros G. simpl. unfold ProfileDict_setitem. now rewrite G. Qed.

(** The turn of the sign walk at a nested mapping. *)
Lemma walk_item_node k D2 R2 d st out st' :
  dict_get k d = Some (ProfileDict R2) ->
  walk_item' k (PDict D2) (ProfileDict d) st = (out, st', None) ->
  exists c,
    for_items walk_item' D2 (ProfileDict R2) st = (c, st', None)
    /\ out = ProfileDict (dict_set k c d).
Proof.
  intros G W. simpl in W. unfold node_get, get_or_None in W. simpl in W.
  rewrite G in W.
  match type of W with
  | context [if ?c then _ else _] => destruct c
  end.
  { unfold ProfileDict_setitem in W. rewrite G in W. simpl in W. discriminate W. }
  match type of W with
  | context [if ?c then _ else _] => destruct c
  end; [|discriminate W].
  unfold dict_has in W. rewrite G in W.
  unfold descend, node_getitem in W. simpl in W. rewrite G in W.
  destruct (for_items walk_item' D2 (ProfileDict R2) st) as [[c st1] r1].
  injection W as <- <- ->. eauto.
Qed.

Lemma fresh_after (k : string) (x : value) (pre R : dict) :
  ~ In k (keys R) ->
  (forall k', In k' (keys ((k, x) :: R)) -> ~ In k' (keys pre)) ->
  forall y k', In k' (keys R) -> ~ In k' (keys (pre ++ [(k, y)])%list).
Proof.
  intros N Fresh y k' I. rewrite keys_app, in_app_iff. simpl.
  intros [J|[<-|[]]]; [|contradiction]. apply (Fresh k'); auto. now right.
Qed.

Lemma for_items_steady D out st :
  steady st (snd (fst (for_items walk_item' D out st))).
Proof.
  apply (for_items_tame walk_item' D). apply Forall_forall.
  intros kv _ k out' st'. apply walk_item_tame.
Qed.

Section Leaves.

(** A relation [Q st a v a'] between the state of a turn of the walk, the
    attribute before it, the flat value and the attribute after it: it
    holds where the turn writes nothing and where it makes a write that
    returns, and it depends on nothing of the state that a walk changes. *)
Variable Q : state -> dict -> value -> dict -> Prop.

Hypothesis Q_skip :
  forall st a v,
    has_value a = true -> py_eq (SignableAttribute_value a) v = true ->
    Q st a v a.

Hypothesis Q_write :
  forall st a name v a' st',
    has_value a = true ->
    setattr a name v st = (a', st', None) ->
    py_eq (SignableAttribute_value a) v = false \/ (exists s, v = PStr s) ->
    Q st a v a'.

Hypothesis Q_steady :
  forall st st' a v a', steady st st' -> Q st' a v a' -> Q st a v a'.

Lemma signed_as_steady st st' D R R' :
  steady st st' -> signed_as (Q st') D R R' -> signed_as (Q st) D R R'.
Proof. intros S. induction 1; constructor; eauto. Qed.

(** The sign walk over a flat view that conforms to the raw tree, when it
    returns: the raw tree keeps its shape, and [Q] relates its attributes
    to what they were. *)
Lemma walk_flat_to_raw D R :
  conforms D R ->
  forall pre st out st',
    (forall k, In k (keys R) -> ~ In k (keys pre)) ->
    for_items walk_item' D (ProfileDict (pre ++ R)%list) st = (out, st', None) ->
    exists R',
      out = ProfileDict (pre ++ R')%list
      /\ raw_tree R'
      /\ keys R' = keys R
      /\ signed_as (Q st) D R R'.
Proof.
  induction 1 as [|k s D R N _ IH|k v a name D R SO V N _ IH
                  |k D2 R2 D R _ IH2 N _ IH];
    intros pre st out st' Fresh W.
  - injection W as <- <-. exists []. repeat split; constructor.
  - assert (~ In k (keys pre)) as Nk by (apply Fresh; now left).
    cbn [for_items] in W.
    rewrite (walk_item_str k s s _ st) in W
      by (rewrite dict_get_app_absent by auto; simpl; now rewrite String.eqb_refl).
    rewrite (app_cons_assoc pre (k, PStr s) R) in W.
    destruct (IH _ _ _ _ (fresh_after _ _ _ _ N Fresh _) W)
      as (R' & -> & T & K & B).
    exists ((k, PStr s) :: R'). rewrite <- app_cons_assoc.
    repeat split; simpl; try congruence; constructor; auto. now rewrite K.
  - assert (~ In k (keys pre)) as Nk by (apply Fresh; now left).
    cbn [for_items] in W.
    pose proof (walk_item_tame jws_sign gmtime_stamp v k
                  (ProfileDict (pre ++ (k, SignableAttribute a name) :: R)%list) st)
      as [St _].
    destruct (walk_item' k v (ProfileDict (pre ++ (k, SignableAttribute a name) :: R)%list) st)
      as [[o1 s1] [e|]] eqn:E; [discriminate|].
    simpl in St.
    apply walk_item_leaf with (a := a) (name := name) in E;
      [|rewrite dict_get_app_absent by auto; simpl; now rewrite String.eqb_refl].
    destruct E as (a' & -> & Leaf).
    assert (Q st a v a' /\ has_value a' = true) as [Qa V'].
    { destruct Leaf as [(-> & _ & E)|(E & Wr)]; split; eauto.
      eapply setattr_has_value; eauto. }
    rewrite (dict_set_app_absent _ _ _ _ _ Nk) in W.
    rewrite (app_cons_assoc pre (k, SignableAttribute a' name) R) in W.
    destruct (IH _ _ _ _ (fresh_after _ _ _ _ N Fresh _) W)
      as (R' & -> & T & K & B).
    exists ((k, SignableAttribute a' name) :: R'). rewrite <- app_cons_assoc.
    split; [reflexivity|]. split; [constructor; auto; now rewrite K|].
    split; [simpl; congruence|].
    constructor; [exact Qa | eapply signed_as_steady; eauto].
  - assert (~ In k (keys pre)) as Nk by (apply Fresh; now left).
    cbn [for_items] in W.
    pose proof (walk_item_tame jws_sign gmtime_stamp (PDict D2) k
                  (ProfileDict (pre ++ (k, ProfileDict R2) :: R)%list) st)
      as [St _].
    destruct (walk_item' k (PDict D2) (ProfileDict (pre ++ (k, ProfileDict R2) :: R)%list) st)
      as [[o1 s1] [e|]] eqn:E; [discriminate|].
    simpl in St.
    apply walk_item_node with (R2 := R2) in E;
      [|rewrite dict_get_app_absent by auto; simpl; now rewrite String.eqb_refl].
    destruct E as (c & E & ->).
    destruct (IH2 [] st c s1 (fun _ _ F => F) E) as (R2' & -> & T2 & K2 & B2).
    simpl app in W.
    rewrite (dict_set_app_absent _ _ _ _ _ Nk) in W.
    rewrite (app_cons_assoc pre (k, ProfileDict R2') R) in W.
    destruct (IH _ _ _ _ (fresh_after _ _ _ _ N Fresh _) W)
      as (R' & -> & T & K & B).
    exists ((k, ProfileDict R2') :: R'). rewrite <- app_cons_assoc.
    split; [reflexivity|]. split; [constructor; auto; now rewrite K|].
    split; [simpl; congruence|].
    constructor; [exact B2 | eapply signed_as_steady; eauto].
Qed.

(** [sign], when it returns, for a profile whose flat view conforms to its
    raw tree. *)
Lemma sign_signed_as (p : Profile) (R : dict) (level : option string)
    (w : world) (p' : Profile) (w' : world) :
  intact p = true ->
  _profile p = ProfileDict R ->
  conforms (data p) R ->
  sign jws_sign gmtime_stamp p level w = (p', w', None) ->
  exists R',
    _profile p' = ProfileDict R'
    /\ raw_tree R'
    /\ signed_as (Q (match level with
                     | Some l => set_DISPLAY_LEVEL (Some l) w
                     | None => w
                     end, __notifications p)) (data p) R R'.
Proof.
  intros I P C S. rewrite (sign_intact_eq _ _ _ _ _ I) in S. cbv zeta in S.
  rewrite P in S.
  destruct (walk (PDict (data p)) (ProfileDict R) _) as [[raw st] r] eqn:W.
  injection S as <- <- ->. simpl.
  unfold _walk in W. simpl in W.
  destruct (walk_flat_to_raw _ _ C [] _ _ _ (fun _ _ F => F) W)
    as (R' & -> & T & K & B).
  exists R'. auto.
Qed.

End Leaves.

Lemma signed_as_reads_back D R R' :
  signed_as (fun a v a' =>
               reads_back (SignableAttribute_value a) v (SignableAttribute_value a'))
            D R R' ->
  reads_back_all D R (flat_entries R').
Proof.
  induction 1.
  - constructor.
  - now constructor.
  - change (flat_entries ((k, SignableAttribute a' name) :: R'))
      with ((k, SignableAttribute_value a') :: flat_entries R').
    now constructor.
  - change (flat_entries ((k, ProfileDict R2') :: R'))
      with ((k, flat_of (ProfileDict R2')) :: flat_entries R').
    rewrite flat_of_ProfileDict. now constructor.
Qed.

(** C1, as the code has it, for a profile none of whose methods is hidden.
    The flat view conforms to the raw tree: the same keys in the same
    order, the unsigned strings as the raw tree has them, any value at an
    attribute (a list with strings only), a conforming mapping at a nested
    [ProfileDict].  When [sign] returns, the
    walk from the new raw tree into an empty flat view returns too, changes
    nothing, and reads at each attribute what [reads_back] says: the value
    the attribute held where that was equal to the flat one; otherwise the
    decimal string of an integer, a value equal to the mapping of the
    members of a non-empty list, each once, to [None], [None] for a flat
    [None], [[]] or [{}] where the attribute held [None], and the flat
    value itself in every other case. *)
Theorem flat_raw_flat_round_trip
    (p : Profile) (R : dict) (level : option string) (w : world)
    (p' : Profile) (w' : world) :
  intact p = true ->
  _profile p = ProfileDict R ->
  conforms (data p) R ->
  sign jws_sign gmtime_stamp p level w = (p', w', None) ->
  exists F,
    walk (_profile p') (PDict []) (w', __notifications p')
    = (PDict F, (w', __notifications p'), None)
    /\ reads_back_all (data p) R F.
Proof.
  intros I P C S.
  destruct (sign_signed_as
              (fun _ a v a' =>
                 reads_back (SignableAttribute_value a) v (SignableAttribute_value a'))
              (fun st a v V E => ltac:(unfold reads_back; now rewrite E))
              (fun st a name v a' st' => setattr_reads_back a name v st a' st')
              (fun _ _ _ _ _ _ H => H)
              p R level w p' w' I P C S) as (R' & -> & T & B).
  exists (flat_entries R'). split; [|now apply signed_as_reads_back].
  unfold _walk. simpl.
  now rewrite (walk_raw_to_flat _ T [] _ (fun _ _ F => F)).
Qed.

End RoundTrip.

Lemma profile_C_conforms :
  conforms (data profile_C) (dict_of (_profile profile_C)).
Proof.
  simpl.
  repeat first [apply conforms_nil | apply conforms_str
               | apply conforms_leaf | apply conforms_node];
    try reflexivity; simpl; intuition discriminate.
Qed.

Lemma flat_raw_flat_round_trip_witness :
  let '(p', w', r) :=
    sign sample_jws sample_clock profile_C (Some "staff") fresh_world in
  _walk sample_jws sample_clock (_profile p') (PDict []) (w', __notifications p')
  = (PDict flat_C, (w', __notifications p'), None)
  /\ reads_back_all (data profile_C) (dict_of (_profile profile_C)) flat_C.
Proof.
  destruct (flat_raw_flat_round_trip sample_jws sample_clock profile_C
              (dict_of (_profile profile_C)) (Some "staff") fresh_world
              (fst (fst (sign sample_jws sample_clock profile_C (Some "staff")
                              fresh_world)))
              (snd (fst (sign sample_jws sample_clock profile_C (Some "staff")
                              fresh_world)))
              eq_refl eq_refl profile_C_conforms eq_refl)
    as (F & W & B).
  vm_compute in W. injection W as <-.
  vm_compute in B. vm_compute. split; [reflexivity | exact B].
Defined.

(** The attribute [pgp_public_keys] holds [None] and the flat view is given
    the empty mapping [{}], which is no number and no list: [sign] returns,
    and the raw tree reads back [None]. *)
Lemma blank_reads_back_None :
  let '(p', w', r) := sign sample_jws sample_clock profile_blank (Some "staff")
                           fresh_world in
  dict_get "pgp_public_keys" (data profile_blank) = Some (PDict [])
  /\ r = None
  /\ dict_get "pgp_public_keys"
       (dict_of (fst (fst (_walk sample_jws sample_clock (_profile p') (PDict [])
                                 (w', __notifications p')))))
     = Some PNone
  /\ py_eq PNone (PDict []) = false.
Proof. repeat split; reflexivity. Qed.

(** ** The display level of a sign *)

Lemma last_supplied_app (l1 l2 : list (option string)) (g : option string) :
  last_supplied (l1 ++ l2) g = last_supplied l2 (last_supplied l1 g).
Proof. apply fold_left_app. Qed.

Lemma last_supplied_None (levels : list (option string)) (g : option string) :
  last_supplied levels g = None -> g = None /\ Forall (fun l => l = None) levels.
Proof.
  revert g. induction levels as [|l t IH]; intros g H; simpl in *; auto.
  apply IH in H as [H F]. destruct l; [discriminate|]. auto.
Qed.

Section DisplayLevel.

Variable jws_sign : dict -> value -> string.
Variable gmtime_stamp : nat -> string.

#[local] Abbreviation setattr := (SignableAttribute_setattr jws_sign gmtime_stamp).
#[local] Abbreviation sign' := (sign jws_sign gmtime_stamp).
#[local] Abbreviation signs' := (signs jws_sign gmtime_stamp).

(** The display level of an attribute after a write that returns. *)
Lemma setattr_levelled a name v st a' st' :
  setattr a name v st = (a', st', None) ->
  levelled (DISPLAY_LEVEL (fst st)) a v a'.
Proof.
  intros W. unfold SignableAttribute_setattr in W.
  destruct (normalize v) as [e|v0]; [discriminate|]. cbv zeta in W.
  destruct (dict_get (value_key a) a) as [current|]; [|discriminate].
  destruct (nothing_to_set current v0); [injection W as <- _; now left|].
  rewrite dict_has_set_other in W by (apply value_key_neq; discriminate).
  right.
  destruct (dict_has "signature" a) eqn:Sg; simpl in W.
  2: { injection W as <- _. left. split; [reflexivity|].
       apply metadata_of_set_other, value_key_neq; discriminate. }
  right.
  destruct (stamp_and_sign_cases jws_sign gmtime_stamp
              (dict_set (value_key a) v0 a) name current v0 st)
    as [[e E]|(m & created & b & M & C & S)]; [rewrite E in W; discriminate|].
  rewrite (stamp_and_sign_stamped _ _ _ _ _ _ _ _ _ _ M C S) in W.
  cbv zeta in W.
  assert (display_of a = dict_get "display" m) as Da.
  { unfold display_of. rewrite <- (metadata_of_set_other "display" (value_key a) v0 a)
      by (apply value_key_neq; discriminate).
    unfold metadata_of. now rewrite M. }
  destruct (dict_get "display" m) as [display|] eqn:D; [|discriminate].
  destruct (resolve_display _ display _) as [e|m2] eqn:RD; [discriminate|].
  destruct (PUBLISHER_SIGNING_KEY _); [|discriminate].
  destruct (PUBLISHER_NAME _); [|discriminate].
  injection W as <- _.
  assert (forall x, display_of
                      (dict_set "signature" x
                         (dict_del "signature"
                            (dict_set "metadata" (PDict m2)
                               (dict_set "metadata"
                                  (PDict (stamped (gmtime_stamp (ticks (fst st))) b m))
                                  (dict_set (value_key a) v0 a)))))
                    = dict_get "display" m2) as Dn.
  { intros x. unfold display_of.
    now rewrite metadata_of_set_other, metadata_of_del_other,
                metadata_of_set_metadata by discriminate. }
  rewrite Da. unfold resolve_display in RD.
  change (DISPLAY_LEVEL (tick (fst st))) with (DISPLAY_LEVEL (fst st)) in RD.
  destruct (is_None display) eqn:N.
  - destruct display; try discriminate.
    destruct (DISPLAY_LEVEL (fst st)) as [l|]; [|discriminate].
    injection RD as <-. exists (PStr l). rewrite Dn, dict_get_set_same. auto.
  - injection RD as <-. exists display. rewrite Dn.
    rewrite stamped_get, D by discriminate.
    repeat split; auto. now destruct display.
Qed.

(** C4, as the code has it, for a write that changes the value of a
    well-formed attribute.  It fails with the [ValueError] of the missing
    display level exactly when the attribute has no level and the global
    level is unset.  The write that fails has stored the value by then and
    put the time in [last_modified], with the old signature, no level and
    no notification, so that the same write again, in whatever state, finds
    nothing to set and returns without signing.  When a level can be
    resolved, from the attribute or from the global, and the signer is
    ready, the write returns and the level is in the attribute's metadata;
    the next write to it returns as well, and keeps that level, with the
    global level unset. *)
Theorem display_level_enforced data name v v' current st :
  well_formed_leaf data = true ->
  normalize v = inr v' ->
  dict_get (value_key data) data = Some current ->
  nothing_to_set current v' = false ->
  (snd (setattr data name v st) = Some no_display_level
   <-> display_of data = Some PNone /\ DISPLAY_LEVEL (fst st) = None)
  /\ (snd (setattr data name v st) = Some no_display_level ->
      SignableAttribute_value (fst (fst (setattr data name v st))) = v'
      /\ last_modified_of (fst (fst (setattr data name v st)))
         = Some (PStr (gmtime_stamp (ticks (fst st))))
      /\ display_of (fst (fst (setattr data name v st))) = Some PNone
      /\ dict_get "signature" (fst (fst (setattr data name v st)))
         = dict_get "signature" data
      /\ snd (snd (fst (setattr data name v st))) = snd st
      /\ (wf_value v ->
          forall st2,
            setattr (fst (fst (setattr data name v st))) name v st2
            = (fst (fst (setattr data name v st)), st2, None)))
  /\ (forall level,
        resolved_level data (fst st) = Some level ->
        signer_ready (fst st) = true ->
        snd (setattr data name v st) = None
        /\ display_of (fst (fst (setattr data name v st))) = Some level
        /\ forall v2 v2' st2,
            normalize v2 = inr v2' ->
            nothing_to_set v' v2' = false ->
            signer_ready (fst st2) = true ->
            DISPLAY_LEVEL (fst st2) = None ->
            snd (setattr (fst (fst (setattr data name v st))) name v2 st2) = None
            /\ display_of
                 (fst (fst (setattr (fst (fst (setattr data name v st))) name v2 st2)))
               = Some level).
Proof.
  intros W N C T.
  pose proof (setattr_stored jws_sign gmtime_stamp data name v v' current st N C T) as ST.
  pose proof (setattr_value_key jws_sign gmtime_stamp data name v st) as VK.
  rewrite <- VK in ST.
  destruct (setattr_to_display jws_sign gmtime_stamp data name v v' current st W N C T)
    as (m & created & b & display & M & Cr & S & Dm & E).
  cbv zeta in E.
  assert (display_of data = Some display) as Dd
    by (unfold display_of, metadata_of; now rewrite M).
  assert (snd (setattr data name v st) = Some no_display_level ->
          display = PNone /\ DISPLAY_LEVEL (fst st) = None
          /\ setattr data name v st
             = (dict_set "metadata"
                  (PDict (stamped (gmtime_stamp (ticks (fst st))) b m))
                  (dict_set (value_key data) v' data),
                (tick (fst st), snd st), Some no_display_level)) as Refused.
  { intros F. rewrite E in F |- *.
    destruct (resolve_display _ display _) as [e|m2] eqn:RD.
    - apply resolve_display_raises in RD as (-> & -> & G). auto.
    - destruct (PUBLISHER_SIGNING_KEY _); [|discriminate F].
      destruct (PUBLISHER_NAME _); discriminate F. }
  split; [split|split].
  - intros F. destruct (Refused F) as (-> & G & _). auto.
  - intros [D G]. rewrite Dd in D. injection D as ->. rewrite E.
    unfold resolve_display. simpl is_None. cbv iota.
    change (DISPLAY_LEVEL (tick (fst st))) with (DISPLAY_LEVEL (fst st)).
    now rewrite G.
  - intros F. destruct (Refused F) as (-> & G & R).
    split; [apply value_of_key; exact ST|].
    rewrite R in *. cbn [fst snd] in *.
    split; [|split; [|split; [|split; [reflexivity|]]]].
    + unfold last_modified_of. rewrite metadata_of_set_metadata.
      apply stamped_last_modified.
    + unfold display_of. rewrite metadata_of_set_metadata.
      now rewrite stamped_get by discriminate.
    + rewrite !dict_get_set_other; auto; try discriminate.
      apply value_key_neq; discriminate.
    + intros Wf st2. apply (setattr_same _ _ _ _ _ v' v'); auto.
      unfold nothing_to_set. now rewrite (py_eq_refl v' (normalize_wf _ _ Wf N)).
  - intros level L R.
    destruct (setattr_signs jws_sign gmtime_stamp data name v v' current st level
                W N C T L R)
      as (data' & E' & D' & NL & W' & ST').
    rewrite E'. simpl. repeat split; auto.
    + assert (resolved_level data' (fst st2) = Some level) as L2
        by (unfold resolved_level; rewrite D'; now destruct level).
      destruct (setattr_signs jws_sign gmtime_stamp data' name v2 v2' v' st2 level
                  W' H ST' H0 L2 H1)
        as (data2 & E2 & _). now rewrite E2.
    + assert (resolved_level data' (fst st2) = Some level) as L2
        by (unfold resolved_level; rewrite D'; now destruct level).
      destruct (setattr_signs jws_sign gmtime_stamp data' name v2 v2' v' st2 level
                  W' H ST' H0 L2 H1)
        as (data2 & E2 & D2 & _). now rewrite E2.
Qed.

Lemma sign_DISPLAY_LEVEL (p : Profile) (level : option string) (w : world) :
  intact p = true ->
  DISPLAY_LEVEL (snd (fst (sign' p level w)))
  = last_supplied [level] (DISPLAY_LEVEL w).
Proof.
  intros I. rewrite (sign_intact_eq _ _ _ _ _ I). cbv zeta.
  match goal with
  | |- context [_walk ?j ?g ?i ?o ?st] =>
      pose proof (walk_tame j g i o st) as [S _];
      destruct (_walk j g i o st) as [[raw st'] r]
  end.
  destruct S as [S _]. simpl in *. rewrite S. now destruct level.
Qed.

Lemma signs_DISPLAY_LEVEL (calls : list (Profile * option string)) (w : world) :
  Forall (fun call => intact (fst call) = true) calls ->
  DISPLAY_LEVEL (signs' calls w) = last_supplied (map snd calls) (DISPLAY_LEVEL w).
Proof.
  intros F. revert w.
  induction F as [|[p level] t I _ IH]; intros w; simpl; auto.
  rewrite IH, sign_DISPLAY_LEVEL by exact I. reflexivity.
Qed.

(** C9, as the code has it: [sign] keeps the display level in the module
    global [DISPLAY_LEVEL].  For [sign] calls that are made one after the
    other: the global holds the level of the last call that supplied one,
    on whichever profile it was made, or what it held before them all.  That
    level is the one a call applies: the call raises the error of the
    missing display level only if it supplies none, no call before it
    supplied one and the global held none before them; and when it returns,
    every attribute of the raw tree is as it was, or has no [signature] and
    the level it had, or has a level that is not [None]: the one it had, or
    that of the global where it had none.  No method of the profiles is
    hidden. *)
Theorem display_level_is_global
    (calls : list (Profile * option string))
    (p : Profile) (level : option string) (w0 : world) :
  Forall (fun call => intact (fst call) = true) calls ->
  intact p = true ->
  let w := signs' calls w0 in
  let g := last_supplied (map snd calls ++ [level]) (DISPLAY_LEVEL w0) in
  DISPLAY_LEVEL w = last_supplied (map snd calls) (DISPLAY_LEVEL w0)
  /\ DISPLAY_LEVEL (snd (fst (sign' p level w))) = g
  /\ (snd (sign' p level w) = Some no_display_level ->
      level = None
      /\ Forall (fun call => snd call = None) calls
      /\ DISPLAY_LEVEL w0 = None)
  /\ (forall R p' w',
        _profile p = ProfileDict R ->
        conforms (data p) R ->
        sign' p level w = (p', w', None) ->
        exists R',
          _profile p' = ProfileDict R'
          /\ signed_as (levelled g) (data p) R R').
Proof.
  intros Fc I w g.
  assert (DISPLAY_LEVEL w = last_supplied (map snd calls) (DISPLAY_LEVEL w0)) as Dw
    by now apply signs_DISPLAY_LEVEL.
  assert (g = last_supplied [level] (DISPLAY_LEVEL w)) as Dg
    by (unfold g; now rewrite last_supplied_app, Dw).
  split; [exact Dw|]. split; [now rewrite sign_DISPLAY_LEVEL|]. split.
  - intros E.
    assert (g = None) as G.
    { destruct g eqn:Eg; auto. exfalso.
      rewrite (sign_intact_eq _ _ _ _ _ I) in E. cbv zeta in E.
      match type of E with
      | context [_walk ?j ?t ?i ?o ?st] =>
          pose proof (walk_tame j t i o st) as [_ [_ M]];
          destruct (_walk j t i o st) as [[raw st'] r]
      end.
      simpl in E, M. apply M; auto.
      unfold last_supplied in Dg. simpl in Dg.
      destruct level; simpl; [discriminate | congruence]. }
    unfold g in G. apply last_supplied_None in G as [G F].
    apply Forall_app in F as [F1 F2]. inversion F2; subst.
    repeat split; auto. rewrite Forall_map in F1. exact F1.
  - intros R p' w' P C S.
    destruct (sign_signed_as jws_sign gmtime_stamp
                (fun st => levelled (DISPLAY_LEVEL (fst st)))
                (fun st a v _ _ => or_introl eq_refl)
                (fun st a name v a' st' _ W _ => setattr_levelled a name v st a' st' W)
                (fun st st' a v a' S H =>
                   eq_ind _ (fun x => levelled x a v a') H _ (proj1 S))
                p R level w p' w' I P C S) as (R' & E & _ & B).
    exists R'. split; [exact E|].
    replace g with (DISPLAY_LEVEL
                      (fst (match level with
                            | Some l => set_DISPLAY_LEVEL (Some l) w
                            | None => w
                            end, __notifications p))); [exact B|].
    rewrite Dg. now destruct level.
Qed.

End DisplayLevel.

Lemma display_level_enforced_witness :
  snd (SignableAttribute_setattr sample_jws sample_clock
         (sample_leaf "value" (PStr "old")) "fun_title" (PStr "new")
         (fresh_world, []))
  = Some no_display_level
  /\ display_of (fst (fst (SignableAttribute_setattr sample_jws sample_clock
                             (sample_leaf "value" (PStr "old")) "fun_title"
                             (PStr "new") (staff_world, []))))
     = Some (PStr "staff").
Proof.
  split.
  - refine (proj2 (proj1 (display_level_enforced sample_jws sample_clock
                     (sample_leaf "value" (PStr "old")) "fun_title" (PStr "new")
                     (PStr "new") (PStr "old") (fresh_world, []) _ _ _ _)) _);
      try reflexivity. split; reflexivity.
  - refine (proj1 (proj2 (proj2 (proj2 (display_level_enforced sample_jws sample_clock
                     (sample_leaf "value" (PStr "old")) "fun_title" (PStr "new")
                     (PStr "new") (PStr "old") (staff_world, []) _ _ _ _))
                     (PStr "staff") _ _)));
      reflexivity.
Defined.

(** Profile B is signed without a level.  In a fresh process the sign is
    refused, and the sign with the level [staff] that follows returns and
    signs nothing: the attribute holds the new value with no level, the old
    signature and no notification.  And after another profile was signed
    with [public], the sign of B without a level is not refused: it puts
    [public] on B's attribute. *)
Lemma refused_write_is_not_retried :
  let refused := sign sample_jws sample_clock profile_B None fresh_world in
  let retried := sign sample_jws sample_clock (fst (fst refused)) (Some "staff")
                      (snd (fst refused)) in
  let leaf := leaf_at (_profile (fst (fst retried))) "pgp_public_keys" in
  let elsewhere := snd (fst (sign sample_jws sample_clock person_A (Some "public")
                                  fresh_world)) in
  let unsupplied := sign sample_jws sample_clock profile_B None elsewhere in
  snd refused = Some no_display_level
  /\ snd retried = None
  /\ SignableAttribute_value leaf = PDict [("0xBEEF", PNone)]
  /\ display_of leaf = Some PNone
  /\ dict_get "signature" leaf = Some unsigned_block
  /\ __notifications (fst (fst retried)) = []
  /\ snd unsupplied = None
  /\ display_of (leaf_at (_profile (fst (fst unsupplied))) "pgp_public_keys")
     = Some (PStr "public").
Proof. vm_compute. repeat split; reflexivity. Qed.

Lemma display_level_is_global_witness :
  DISPLAY_LEVEL
    (snd (fst (sign sample_jws sample_clock profile_B None
                    (signs sample_jws sample_clock [(profile_A, Some "staff")]
                           fresh_world))))
  = Some "staff".
Proof.
  exact (proj1 (proj2 (display_level_is_global sample_jws sample_clock
                         [(profile_A, Some "staff")] profile_B None fresh_world
                         (Forall_cons (P := fun call => intact (fst call) = true)
                                      (profile_A, Some "staff")
                                      eq_refl (Forall_nil _))
                         eq_refl))).
Defined.

(** With a fresh process, signing profile B without a level is refused; once
    profile A has been signed with the level [staff], the same call on B goes
    through and B's attribute is published at A's level.  And where the walk
    of a sign of A with [staff] begins after another sign has stored
    [public], as it can when the calls are made from several threads, A's
    attribute is published at [public]. *)
Lemma display_level_leaks_between_profiles :
  let w1 := snd (fst (sign sample_jws sample_clock profile_A (Some "staff") fresh_world)) in
  let alone := sign sample_jws sample_clock profile_B None fresh_world in
  let after := sign sample_jws sample_clock profile_B None w1 in
  let overlapped :=
    _walk sample_jws sample_clock (PDict (data profile_A)) (_profile profile_A)
          (set_DISPLAY_LEVEL (Some "public")
             (set_DISPLAY_LEVEL (Some "staff") fresh_world), []) in
  snd alone = Some no_display_level
  /\ snd after = None
  /\ display_of (leaf_at (_profile (fst (fst after))) "pgp_public_keys")
     = Some (PStr "staff")
  /\ snd overlapped = None
  /\ display_of (leaf_at (fst (fst overlapped)) "primary_email")
     = Some (PStr "public").
Proof. repeat split; reflexivity. Qed.

(** ** Construction from a document *)

Lemma raw_of_node (k : string) (d : dict) :
  has_value d = false -> raw_of k (PDict d) = ProfileDict (raw_entries d).
Proof.
  intros H. simpl. rewrite H. f_equal. clear H.
  induction d as [|[k' x] t IH]; simpl; congruence.
Qed.

Lemma raw_of_leaf (k : string) (d : dict) :
  has_value d = true -> raw_of k (PDict d) = SignableAttribute d k.
Proof. intros H. simpl. now rewrite H. Qed.

Lemma keys_raw_entries (d : dict) : keys (raw_entries d) = keys d.
Proof. unfold keys, raw_entries. rewrite map_map. reflexivity. Qed.

(** The raw tree of a document has the shape [raw_tree] asks for. *)
Lemma raw_entries_tree (D : dict) : document D -> raw_tree (raw_entries D).
Proof.
  induction 1 as [|k s D N _ IH|k leaf D V N _ IH|k D2 D V M _ IH2 N _ IH].
  - constructor.
  - simpl. constructor; auto. now rewrite keys_raw_entries.
  - change (raw_entries ((k, PDict leaf) :: D))
      with ((k, raw_of k (PDict leaf)) :: raw_entries D).
    rewrite (raw_of_leaf _ _ V). constructor; auto. now rewrite keys_raw_entries.
  - change (raw_entries ((k, PDict D2) :: D))
      with ((k, raw_of k (PDict D2)) :: raw_entries D).
    rewrite (raw_of_node _ _ V). constructor; auto. now rewrite keys_raw_entries.
Qed.

Lemma dict_get_raw_entries (k : string) (D : dict) :
  dict_get k (raw_entries D) = option_map (raw_of k) (dict_get k D).
Proof.
  induction D as [|[k' x] t IH]; simpl; auto.
  destruct (String.eqb_spec k k') as [->|]; auto.
Qed.

Lemma dict_get_flat_entries (k : string) (R : dict) :
  dict_get k (flat_entries R) = option_map flat_of (dict_get k R).
Proof.
  induction R as [|[k' x] t IH]; simpl; auto.
  destruct (String.eqb k k'); auto.
Qed.

Lemma value_has (a : dict) (b : bool) :
  SignableAttribute_value a = PBool b -> has_value a = true.
Proof.
  unfold SignableAttribute_value, get_or_None, has_value, dict_has.
  destruct (dict_get "value" a); auto.
  destruct (dict_get "values" a); [auto | discriminate].
Qed.

Section Construction.

Variable jws_sign : dict -> value -> string.
Variable gmtime_stamp : nat -> string.

#[local] Abbreviation walk_item' := (walk_item jws_sign gmtime_stamp).
#[local] Abbreviation init := (Profile_init jws_sign gmtime_stamp).

(** The walk from a document into a raw tree that has none of its keys
    appends the raw node of every entry, and changes nothing else. *)
Lemma walk_document D :
  document D ->
  forall pre st,
    (forall k, In k (keys D) -> ~ In k (keys pre)) ->
    for_items walk_item' D (ProfileDict pre) st
    = (ProfileDict (pre ++ raw_entries D)%list, st, None).
Proof.
  induction 1 as [|k s D N _ IH|k leaf D V N _ IH|k D2 D V M _ IH2 N _ IH];
    intros pre st Fresh.
  - simpl. now rewrite app_nil_r.
  - assert (~ In k (keys pre)) as Nk by (apply Fresh; now left).
    assert (dict_get k pre = None) as G by now apply dict_get_None_keys.
    cbn [for_items]. simpl walk_item. unfold ProfileDict_setitem. rewrite G.
    rewrite (dict_set_append _ _ _ Nk).
    change (raw_entries ((k, PStr s) :: D)) with ((k, PStr s) :: raw_entries D).
    rewrite (app_cons_assoc pre (k, PStr s) (raw_entries D)).
    apply IH. eapply fresh_after; eauto.
  - assert (~ In k (keys pre)) as Nk by (apply Fresh; now left).
    assert (dict_get k pre = None) as G by now apply dict_get_None_keys.
    cbn [for_items]. rewrite (walk_item_new_leaf _ _ _ _ _ _ G V).
    rewrite (dict_set_append _ _ _ Nk).
    change (raw_entries ((k, PDict leaf) :: D))
      with ((k, raw_of k (PDict leaf)) :: raw_entries D).
    rewrite (raw_of_leaf _ _ V).
    rewrite (app_cons_assoc pre (k, SignableAttribute leaf k) (raw_entries D)).
    apply IH. eapply fresh_after; eauto.
  - assert (~ In k (keys pre)) as Nk by (apply Fresh; now left).
    assert (dict_get k pre = None) as G by now apply dict_get_None_keys.
    cbn [for_items].
    assert (walk_item' k (PDict D2) (ProfileDict pre) st
            = (ProfileDict (pre ++ [(k, ProfileDict (raw_entries D2))])%list,
               st, None)) as ->.
    { simpl. unfold node_get. simpl. unfold get_or_None at 1. rewrite G.
      unfold has_value in V. rewrite V, M.
      unfold dict_has. rewrite G. simpl.
      unfold ProfileDict_setitem. rewrite G.
      unfold descend, node_getitem. simpl. rewrite dict_get_set_same.
      rewrite (IH2 [] st) by (intros; intros []). simpl.
      rewrite dict_set_twice. now rewrite (dict_set_append _ _ _ Nk). }
    change (raw_entries ((k, PDict D2) :: D))
      with ((k, raw_of k (PDict D2)) :: raw_entries D).
    rewrite (raw_of_node _ _ V).
    rewrite (app_cons_assoc pre (k, ProfileDict (raw_entries D2)) (raw_entries D)).
    apply IH. eapply fresh_after; eauto.
Qed.

(** The constructor on a document: the raw tree and the flat view it
    builds, and the outcome of its gate. *)
Lemma init_document doc allow_inactive w :
  document doc ->
  init doc allow_inactive w
  = let p := mkProfile (flat_entries (raw_entries doc))
                       (ProfileDict (raw_entries doc)) (keys doc) [] [] in
    if negb allow_inactive then
      match dict_get "active" (flat_entries (raw_entries doc)) with
      | None => (w, inl (KeyError "active"))
      | Some (PBool false) => (w, inl InactiveProfileException)
      | Some _ => (w, inr p)
      end
    else (w, inr p).
Proof.
  intros D. unfold Profile_init, _walk. simpl as_mapping. cbv iota.
  rewrite (walk_document _ D [] _ (fun _ _ F => F)). simpl app.
  simpl as_mapping. cbv iota.
  rewrite (walk_raw_to_flat _ _ _ (raw_entries_tree _ D) [] _ (fun _ _ F => F)).
  reflexivity.
Qed.

End Construction.

(** ** The gate of the constructor *)

Section InactiveGate.

Variable jws_sign : dict -> value -> string.
Variable gmtime_stamp : nat -> string.

#[local] Abbreviation init := (Profile_init jws_sign gmtime_stamp).

(** C7: for a document whose [active] leaf holds false, [Profile(...)] with
    [allow_inactive=False] raises [InactiveProfileException], and with
    [allow_inactive=True] it returns a profile whose flat view has
    [active = False].  Nothing else raises that exception: not
    [__setitem__], not [sign], not [publish]. *)
Theorem inactive_gate_at_construction (doc leaf : dict) (w : world) :
  document doc ->
  dict_get "active" doc = Some (PDict leaf) ->
  SignableAttribute_value leaf = PBool false ->
  init doc false w = (w, inl InactiveProfileException)
  /\ (exists p, init doc true w = (w, inr p)
                /\ dict_get "active" (data p) = Some (PBool false))
  /\ (forall p k v,
        snd (Profile_setitem p k v) <> Some InactiveProfileException
        /\ (descriptor k || unfollowed k = false ->
            snd (Profile_setitem p k v) = None))
  /\ (forall p level w0,
        snd (sign jws_sign gmtime_stamp p level w0) <> Some InactiveProfileException)
  /\ (forall api respond p level dry_run w0,
        snd (publish jws_sign gmtime_stamp api respond p level dry_run w0)
        <> inl InactiveProfileException).
Proof.
  intros D G V.
  assert (dict_get "active" (flat_entries (raw_entries doc)) = Some (PBool false)) as A.
  { rewrite dict_get_flat_entries, dict_get_raw_entries, G. cbn [option_map].
    rewrite (raw_of_leaf _ _ (value_has _ _ V)). simpl. now rewrite V. }
  assert (forall p level w0,
             snd (sign jws_sign gmtime_stamp p level w0)
             <> Some InactiveProfileException) as S.
  { intros p level w0. unfold sign.
    destruct (dict_has "sign" _); [discriminate|].
    destruct (dict_has "_walk" _); [discriminate|].
    match goal with
    | |- context [_walk ?j ?g ?i ?o ?s] =>
        pose proof (walk_tame j g i o s) as [_ [M _]];
        destruct (_walk j g i o s) as [[r0 s0] r]
    end.
    exact M. }
  repeat split.
  - rewrite (init_document _ _ _ _ _ D). simpl. now rewrite A.
  - eexists. split; [rewrite (init_document _ _ _ _ _ D); reflexivity|].
    exact A.
  - unfold Profile_setitem. destruct (existsb _ _); [discriminate|].
    apply setattr_mild.
  - intros N. unfold Profile_setitem. destruct (existsb _ _); [reflexivity|].
    now apply setattr_returns.
  - exact S.
  - intros api respond p level dry_run w0. unfold publish.
    destruct (dict_has "publish" _); [discriminate|].
    pose proof (S p level w0) as M.
    destruct (sign jws_sign gmtime_stamp p level w0) as [[p1 w1] [e|]];
      simpl in *; [congruence|].
    destruct (__notifications p1), (dict_get "primary_email" (data p1));
      simpl; try discriminate;
      repeat match goal with
             | |- context [if ?c then _ else _] => destruct c; simpl
             end;
      try discriminate;
      match goal with
      | |- context [change_profile ?a ?r ?d ?w] =>
          pose proof (change_profile_mild a r d w) as C;
          destruct (change_profile a r d w) as [w2 [e|b]]; simpl in *;
          congruence
      end.
Qed.

End InactiveGate.

Lemma inactive_document_is_document : document inactive_document.
Proof.
  unfold inactive_document.
  repeat first [apply document_nil | apply document_leaf];
    try reflexivity; simpl; intuition discriminate.
Qed.

Lemma inactive_gate_at_construction_witness :
  Profile_init sample_jws sample_clock inactive_document false fresh_world
  = (fresh_world, inl InactiveProfileException)
  /\ exists p,
      Profile_init sample_jws sample_clock inactive_document true fresh_world
      = (fresh_world, inr p)
      /\ dict_get "active" (data p) = Some (PBool false).
Proof.
  destruct (inactive_gate_at_construction sample_jws sample_clock
              inactive_document (sample_leaf "value" (PBool false)) fresh_world
              inactive_document_is_document eq_refl eq_refl) as (A & B & _).
  split; [exact A | exact B].
Defined.
